(** * web-scripts: a shallow embedding of [spider.py] and [pscan.py]

    The development follows the two Python scripts function by function.
    Python [str] values are modelled as [string], a character being one
    of the first 256 Unicode code points (the scripts only inspect such
    characters: the space, the punctuation table, the case of letters,
    digits and the characters of the URL pattern).  Python exceptions are values of [exn] carried by [result];
    input/output (printing, HTTP requests, sleeping, the cache file) is an
    explicit state-and-exception monad over a [world]. *)

From Stdlib Require Import ZArith String Ascii List Lia Bool Sorted.
From stdpp Require Import base strings gmap list.
Import ListNotations.
Open Scope string_scope.
Open Scope list_scope.

(** ** Exceptions and results *)

Inductive exn : Type :=
| AttributeError
| ValueError
| IndexError
| ZeroDivisionError
| OverflowError
| OSError.

Inductive result (A : Type) : Type :=
| Ok (a : A)
| Raise (e : exn).
Arguments Ok {A} a.
Arguments Raise {A} e.

(** Sequencing: the first exception raised ends the computation. *)
#[global] Instance result_ret : MRet result := fun A a => Ok a.

#[global] Instance result_bind : MBind result := fun A B f r =>
  match r with
  | Ok a => f a
  | Raise e => Raise e
  end.

(** ** Strings *)

Module Str.

Definition newline : ascii := ascii_of_nat 10.

(** [s.startswith(p)] *)
Definition startswith (s p : string) : bool := String.prefix p s.

(** [c in s] for a one-character [c] *)
Fixpoint has_char (c : ascii) (s : string) : bool :=
  match s with
  | EmptyString => false
  | String c' s' => if Ascii.eqb c c' then true else has_char c s'
  end.

(** the first [n] characters of [s] *)
Fixpoint take (n : nat) (s : string) : string :=
  match n, s with
  | S n', String c s' => String c (take n' s')
  | _, _ => EmptyString
  end.

(** [s[n:]] *)
Fixpoint drop (n : nat) (s : string) : string :=
  match n, s with
  | S n', String _ s' => drop n' s'
  | _, _ => s
  end.

(** [str(v)] for a value that is a string or [None] *)
Definition py_str (v : option string) : string :=
  match v with
  | Some s => s
  | None => "None"
  end.

(** [s.split(sep)] for a one-character separator: every occurrence of
    [sep] ends a field, so consecutive separators give empty fields and
    the empty string gives one empty field.  ([re.split] with a pattern
    that is one literal character gives the same fields.) *)
Fixpoint split (sep : ascii) (s : string) : list string :=
  match s with
  | EmptyString => [EmptyString]
  | String c s' =>
      if Ascii.eqb c sep then EmptyString :: split sep s'
      else match split sep s' with
           | w :: ws => String c w :: ws
           | [] => [String c EmptyString]
           end
  end.

(** [''.join(c for c in s if p c)] *)
Fixpoint keep (p : ascii -> bool) (s : string) : string :=
  match s with
  | EmptyString => EmptyString
  | String c s' => if p c then String c (keep p s') else keep p s'
  end.

(** [string.punctuation]; the second character is the double quote. *)
Definition punctuation : string :=
  String "!" (String (ascii_of_nat 34) "#$%&'()*+,-./:;<=>?@[\]^_`{|}~").

(** [''.join(c for c in word if c not in string.punctuation)] *)
Definition unpunct (word : string) : string :=
  keep (fun c => negb (has_char c punctuation)) word.

(** [c.lower()]: the capital letters A-Z and, above ASCII, the capital
    letters 192-222 but the multiplication sign, move up by 32. *)
Definition lower_char (c : ascii) : ascii :=
  let n := nat_of_ascii c in
  if ((65 <=? n) && (n <=? 90))%nat then ascii_of_nat (n + 32)
  else if ((192 <=? n) && (n <=? 222) && negb (n =? 215))%nat then ascii_of_nat (n + 32)
  else c.

(** [s.lower()] *)
Fixpoint lower (s : string) : string :=
  match s with
  | EmptyString => EmptyString
  | String c s' => String (lower_char c) (lower s')
  end.

(** The characters [int] skips around a numeral. *)
Definition is_space (c : ascii) : bool :=
  let n := nat_of_ascii c in
  ((9 <=? n) && (n <=? 13) || (n =? 32) || (n =? 133) || (n =? 160))%nat.

Definition digit (c : ascii) : option Z :=
  let n := nat_of_ascii c in
  if ((48 <=? n) && (n <=? 57))%nat then Some (Z.of_nat (n - 48)) else None.

Fixpoint lstrip (s : string) : string :=
  match s with
  | String c s' => if is_space c then lstrip s' else s
  | EmptyString => EmptyString
  end.

(** Digits of a decimal numeral after its first digit: single underscores
    may separate digits; trailing white space may follow the last digit.
    [acc] is the value read so far, [after_us] says that the previous
    character was an underscore. *)
Fixpoint digits (s : string) (acc : Z) (after_us : bool) : option Z :=
  match s with
  | EmptyString => if after_us then None else Some acc
  | String c s' =>
      match digit c with
      | Some d => digits s' (10 * acc + d) false
      | None =>
          if Ascii.eqb c "_" then
            if after_us then None else digits s' acc true
          else if after_us then None
          else match lstrip s with
               | EmptyString => Some acc
               | _ => None
               end
      end
  end.

Definition numeral (s : string) : option Z :=
  match s with
  | String c s' =>
      match digit c with
      | Some d => digits s' d false
      | None => None
      end
  | EmptyString => None
  end.

(** [int(s)] in base ten: optional white space, an optional sign, a
    numeral, optional white space; [ValueError] otherwise. *)
Definition py_int (s : string) : result Z :=
  let s := lstrip s in
  let parsed :=
    match s with
    | String "-" s' => option_map Z.opp (numeral s')
    | String "+" s' => numeral s'
    | _ => numeral s
    end in
  match parsed with
  | Some n => Ok n
  | None => Raise ValueError
  end.

End Str.

(** ** A backtracking matcher for the fragment of [re] used by [get_domain]

    Python's [re] is a backtracking engine: alternatives are tried in
    priority order (a greedy quantifier first tries to match once more, an
    optional item is first tried present) and the first overall success
    wins.  [run] is that engine in continuation-passing style: the
    continuation [k] is "the rest of the pattern", and a [None] from it
    makes the engine fall back to the next alternative. *)

Module Re.

Inductive regex : Type :=
| Eps                              (* the empty pattern *)
| Chr (c : ascii)                  (* a literal character *)
| Any                              (* [.]: any character but a newline *)
| Cat (r1 r2 : regex)              (* r1 r2 *)
| Opt (r : regex)                  (* r? (greedy) *)
| Plus (r : regex)                 (* r+ (greedy) *)
| Group (n : nat) (r : regex).     (* the n-th capturing group *)

(** a literal string *)
Fixpoint lit (s : string) : regex :=
  match s with
  | EmptyString => Eps
  | String c s' => Cat (Chr c) (lit s')
  end.

(** The captured groups of a match object. *)
Definition cont : Type := string -> gmap nat string -> option (gmap nat string).

(** the text consumed between the input [s] and its suffix [s'] *)
Definition consumed (s s' : string) : string :=
  Str.take (String.length s - String.length s') s.

Definition plus_loop (step : string -> gmap nat string -> cont -> option (gmap nat string))
    (k : cont) : nat -> string -> gmap nat string -> option (gmap nat string) :=
  fix loop (fuel : nat) (s : string) (g : gmap nat string) {struct fuel} :=
    step s g (fun s' g' =>
      match fuel with
      | O => k s' g'
      | S fuel' =>
          if (String.length s' <? String.length s)%nat then
            match loop fuel' s' g' with
            | Some m => Some m
            | None => k s' g'
            end
          else k s' g'
      end).

Fixpoint run (r : regex) (s : string) (g : gmap nat string) (k : cont)
    {struct r} : option (gmap nat string) :=
  match r with
  | Eps => k s g
  | Chr c =>
      match s with
      | String c' s' => if Ascii.eqb c c' then k s' g else None
      | EmptyString => None
      end
  | Any =>
      match s with
      | String c' s' => if Ascii.eqb c' Str.newline then None else k s' g
      | EmptyString => None
      end
  | Cat r1 r2 => run r1 s g (fun s' g' => run r2 s' g' k)
  | Opt r1 =>
      match run r1 s g k with
      | Some m => Some m
      | None => k s g
      end
  | Plus r1 => plus_loop (run r1) k (String.length s) s g
  | Group n r1 => run r1 s g (fun s' g' => k s' (<[n := consumed s s']> g'))
  end.

(** [re.match(r, s)]: anchored at the start of [s], not at its end;
    [None] when there is no match. *)
Definition re_match (r : regex) (s : string) : option (gmap nat string) :=
  run r s ∅ (fun _ g => Some g).

(** [m.group(n)] for [n >= 1]: [None] for a group that took no part. *)
Definition group (m : gmap nat string) (n : nat) : option string := m !! n.

(** The words a pattern can match, without priorities. *)
Inductive matches : regex -> string -> Prop :=
| m_eps : matches Eps ""
| m_chr c : matches (Chr c) (String c "")
| m_any c : c <> Str.newline -> matches Any (String c "")
| m_cat r1 r2 u v : matches r1 u -> matches r2 v -> matches (Cat r1 r2) (u +:+ v)
| m_opt_skip r : matches (Opt r) ""
| m_opt_take r u : matches r u -> matches (Opt r) u
| m_plus_once r u : matches r u -> matches (Plus r) u
| m_plus_more r u v : matches r u -> matches (Plus r) v -> matches (Plus r) (u +:+ v)
| m_group n r u : matches r u -> matches (Group n r) u.

End Re.

(** ** Python floats: IEEE 754 binary64

    Only what [calculate_tf] needs: the true division of two integers and
    [round] to a number of decimals.  CPython rounds both correctly: the
    quotient of two integers is the binary64 value nearest to the exact
    quotient, and [round(x, n)] is the binary64 value nearest to the
    decimal with [n] places that is nearest to the exact value of [x]
    (ties to even in both steps).  A finite float is kept as sign,
    integer significand and exponent, so all of it is integer arithmetic. *)

Module Float.
Local Open Scope Z_scope.

(** The value [(-1)^neg * mant * 2^expo], with [0 <= mant < 2^53] and
    [-1074 <= expo <= 971]; [2^52 <= mant] unless [expo = -1074]
    (subnormal numbers and the zeros). *)
Record float : Type := mk { neg : bool; mant : Z; expo : Z }.

Definition emin : Z := -1074.
Definition emax : Z := 971.

(** [1.0] *)
Definition one : float := mk false (2 ^ 52) (-52).

(** [x * 2^e] when [0 <= e], [x] otherwise: the ratio
    [shl n (-e) / shl d e] is [n / d / 2^e] for [e] of either sign. *)
Definition shl (x e : Z) : Z := x * 2 ^ Z.max 0 e.

(** The integer nearest to [p / q], ties to even ([0 <= p], [0 < q]). *)
Definition rne_div (p q : Z) : Z :=
  let f := p / q in
  match 2 * (p mod q) ?= q with
  | Lt => f
  | Gt => f + 1
  | Eq => if Z.even f then f else f + 1
  end.

(** The [t] with [2^t <= n / d < 2^(t+1)] ([0 < n], [0 < d]). *)
Definition floor_log2_ratio (n d : Z) : Z :=
  let t := Z.log2 n - Z.log2 d in
  if shl d t <=? shl n (- t) then t else t - 1.

(** Significand and exponent of the binary64 value nearest to [n / d]
    ([0 <= n], [0 < d]); [None] when that is beyond the largest finite
    float. *)
Definition nearest (n d : Z) : option (Z * Z) :=
  if n =? 0 then Some (0, emin)
  else
    let e := Z.max (floor_log2_ratio n d - 52) emin in
    let m := rne_div (shl n (- e)) (shl d e) in
    let (m', e') := if m =? 2 ^ 53 then (2 ^ 52, e + 1) else (m, e) in
    if emax <? e' then None else Some (m', e').

(** [a / b] for integers [a] and [b] *)
Definition true_div (a b : Z) : result float :=
  if b =? 0 then Raise ZeroDivisionError
  else match nearest (Z.abs a) (Z.abs b) with
       | None => Raise OverflowError
       | Some (m, e) => Ok (mk (xorb (a <? 0) (b <? 0)) m e)
       end.

(** [round(x, ndigits)] for [0 <= ndigits]; beyond 323 decimals every
    float is its own rounding. *)
Definition py_round (x : float) (ndigits : nat) : result float :=
  if (323 <? ndigits)%nat then Ok x
  else
    let p := 10 ^ Z.of_nat ndigits in
    let t := rne_div (shl (mant x * p) (expo x)) (shl 1 (- expo x)) in
    match nearest t p with
    | None => Raise OverflowError
    | Some (m, e) => Ok (mk (neg x) m e)
    end.

(** The value in units of [2^-1074], an integer for every float. *)
Definition ulps (x : float) : Z :=
  (if neg x then -1 else 1) * mant x * 2 ^ (expo x - emin).

(** [x <= y] *)
Definition le (x y : float) : bool := ulps x <=? ulps y.

End Float.

(** ** Python dictionaries

    A [dict] keeps its keys in insertion order, and [calculate_tf] iterates
    over one; a dictionary is therefore the list of its items, in insertion
    order, each key once. *)

Module Dict.

Fixpoint get {V : Type} (d : list (string * V)) (k : string) : option V :=
  match d with
  | [] => None
  | (k', v) :: d' => if String.eqb k k' then Some v else get d' k
  end.

(** [d[k] = v]: an existing key keeps its place, a new one goes last. *)
Fixpoint set {V : Type} (d : list (string * V)) (k : string) (v : V)
    : list (string * V) :=
  match d with
  | [] => [(k, v)]
  | (k', v') :: d' =>
      if String.eqb k k' then (k', v) :: d' else (k', v') :: set d' k v
  end.

End Dict.

(** ** The outside world *)

Inductive event : Type :=
| EvPrint (line : string)                  (* [print(line)] *)
| EvGet (url : string)                     (* [requests.get(url)] was issued *)
| EvSleep (ms : nat)                       (* [time.sleep], in milliseconds *)
| EvRead (path : string)                   (* a file was read *)
| EvWrite (path : string) (data : string). (* a file was (over)written *)

(** What [requests.get(url).text] gives: the text of the page, or an
    exception with its message. *)
Inductive response : Type :=
| RespText (text : string)
| RespError (msg : string).

(** Everything that happened so far, oldest first, and the files of the
    working directory. *)
Record world : Type := mkWorld {
  trace : list event;
  files : gmap string string
}.

Definition io (A : Type) : Type := world -> result A * world.

#[global] Instance io_ret : MRet io := fun A a w => (Ok a, w).

#[global] Instance io_bind : MBind io := fun A B f m w =>
  match m w with
  | (Ok a, w') => f a w'
  | (Raise e, w') => (Raise e, w')
  end.

Definition lift {A} (r : result A) : io A := fun w => (r, w).

Definition emit (e : event) : io unit :=
  fun w => (Ok tt, mkWorld (trace w ++ [e]) (files w)).

Definition print (line : string) : io unit := emit (EvPrint line).

Definition sleep (ms : nat) : io unit := emit (EvSleep ms).

(** [[f x for x in xs]] with an effectful [f], left to right *)
Fixpoint for_each {A B} (f : A -> io B) (xs : list A) : io (list B) :=
  match xs with
  | [] => mret []
  | x :: xs' => y ← f x; ys ← for_each f xs'; mret (y :: ys)
  end.

(** [os.path.isfile(path)] *)
Definition isfile (path : string) : io bool :=
  fun w => (Ok (bool_decide (is_Some (files w !! path))), w).

(** [open(path, 'r').read()] *)
Definition read_file (path : string) : io string :=
  fun w =>
    match files w !! path with
    | Some data => (Ok data, mkWorld (trace w ++ [EvRead path]) (files w))
    | None => (Raise OSError, w)
    end.

(** [open(path, 'w').write(data)] *)
Definition write_file (path data : string) : io unit :=
  fun w => (Ok tt, mkWorld (trace w ++ [EvWrite path data]) (<[path := data]> (files w))).

(** Did a request go out, did the process sleep? *)
Definition is_get (e : event) : bool :=
  match e with EvGet _ => true | _ => false end.

Definition is_sleep (e : event) : bool :=
  match e with EvSleep _ => true | _ => false end.

(** ** spider.py: [get_domain] *)

(** [r'https?://(www\.)?(.+)\..+'] *)
Definition domain_pattern : Re.regex :=
  Re.Cat (Re.lit "http")
 (Re.Cat (Re.Opt (Re.Chr "s"))
 (Re.Cat (Re.lit "://")
 (Re.Cat (Re.Opt (Re.Group 1 (Re.lit "www.")))
 (Re.Cat (Re.Group 2 (Re.Plus Re.Any))
 (Re.Cat (Re.Chr ".")
         (Re.Plus Re.Any)))))).

(** [m = re.match(...); return m.group(2)]; when nothing matches [m] is
    [None] and [m.group] raises [AttributeError]. *)
Definition get_domain (url : string) : result (option string) :=
  match Re.re_match domain_pattern url with
  | None => Raise AttributeError
  | Some m => Ok (Re.group m 2)
  end.

(** ['{domain}.json'.format(domain=get_domain(url))], the first statement
    of [follow_links]. *)
Definition cache_fname (url : string) : result string :=
  domain ← get_domain url; Ok (Str.py_str domain +:+ ".json").


(** ** spider.py: the fetcher, the extractor and the crawl

    The libraries the script calls are parameters: the network behind
    [requests.get] (its answer may depend on what happened before), the
    HTML parser behind [BeautifulSoup(...).find_all] and the [json]
    codec. *)

Section Spider.

Variable requests_get : list event -> string -> response.
Variable soup_hrefs : string -> list (option string).
Variable soup_texts : string -> string -> list string.
Variable json_dumps : list string -> string.
Variable json_loads : string -> result (list string).

(** [requests.get(url).text]: the request goes out, then the answer. *)
Definition http_get (url : string) : io response :=
  fun w => (Ok (requests_get (trace w) url), mkWorld (trace w ++ [EvGet url]) (files w)).

(** Lines 43-44 of [retrieve_page]:
    [if not url.startswith('http'): url = base + url]. *)
Definition resolve (url base : string) : string :=
  if Str.startswith url "http" then url else base +:+ url.

(** A link target is a string or [None] ([element.get('href')] of an
    anchor without [href]). *)
Definition retrieve_page (url : option string) (base : string) : io string :=
  match url with
  | None => mret ""
  | Some url =>
      let url := resolve url base in
      print ("[+] Retrieving " +:+ url);;
      r ← http_get url;
      match r with
      | RespError e =>
          print "[-] Error retrieving page content";;
          print ("[-] " +:+ e);;
          mret ""
      | RespText content =>
          sleep 200;;
          mret content
      end
  end.

(** [[element.get_text().strip() for element in soup.find_all(element_type)]] *)
Definition get_element_texts (content element_type : string) : list string :=
  soup_texts content element_type.

(** [[element.get('href') for element in soup.find_all('a')]] *)
Definition get_links (content : string) : list (option string) :=
  soup_hrefs content.

Definition follow_links (url : string) : io (list string) :=
  cache_fname ← lift (cache_fname url);
  cached ← isfile cache_fname;
  if (cached : bool) then
    print ("[*] Loading from cache file " +:+ cache_fname);;
    data ← read_file cache_fname;
    pages ← lift (json_loads data);
    mret pages
  else
    content ← retrieve_page (Some url) url;
    let links := get_links content in
    pages ← for_each (fun link => retrieve_page link url) links;
    print ("[*] Saving cache file " +:+ cache_fname);;
    write_file cache_fname (json_dumps pages);;
    mret pages.

End Spider.

(** ** spider.py: [create_word_list] *)

Definition create_word_list (elements : list string) (ignored_words : gset string)
    : list string :=
  let word_list := elements ≫= Str.split " " in
  let removed_punctuation := Str.unpunct <$> word_list in
  let lower_list := Str.lower <$> removed_punctuation in
  filter (fun w => (1 < String.length w)%nat /\ w ∉ ignored_words) lower_list.

(** The tokens the specification calls already normalized: in lower
    case, free of punctuation, longer than one character and outside the
    ignore set. *)
Definition clean_token (ignored_words : gset string) (w : string) : Prop :=
  Str.lower w = w /\ Str.unpunct w = w /\
  (1 < String.length w)%nat /\ w ∉ ignored_words.

(** What every token of a word list is: a clean token without a space. *)
Definition normal (ignored_words : gset string) (w : string) : Prop :=
  Str.has_char " " w = false /\ clean_token ignored_words w.

(** [mine_url] after [follow_links]: the word lists of the pages. *)
Definition word_lists (soup_texts : string -> string -> list string)
    (pages : list string) (ignored_words : gset string) : list (list string) :=
  (fun page => create_word_list (soup_texts page "p") ignored_words) <$> pages.

(** ** spider.py: [calculate_tf] *)

(** The body of the first loop: [tf[word] += 1] on a [defaultdict(int)],
    then the running maximum. *)
Definition count_word (st : list (string * Z) * Z) (word : string)
    : list (string * Z) * Z :=
  let (tf, max_freq) := st in
  let n := (default 0 (Dict.get tf word) + 1)%Z in
  let tf := Dict.set tf word n in
  (tf, if (max_freq <? n)%Z then n else max_freq).

(** [for word, freq in tf.items(): tf[word] = round(tf[word] / max_freq, 3)];
    the first item whose division raises ends the loop. *)
Fixpoint scale_all (items : list (string * Z)) (max_freq : Z)
    : result (list (string * Float.float)) :=
  match items with
  | [] => Ok []
  | (word, freq) :: items' =>
      q ← Float.true_div freq max_freq;
      rounded ← Float.py_round q 3;
      rest ← scale_all items' max_freq;
      Ok ((word, rounded) :: rest)
  end.

Definition calculate_tf (word_list : list string)
    : result (list (string * Float.float)) :=
  let (tf, max_freq) := fold_left count_word word_list ([], 0%Z) in
  scale_all tf max_freq.

(** How often [word] occurs in a token stream; [round(count / k, 3)]. *)
Fixpoint occurrences (word : string) (word_list : list string) : Z :=
  match word_list with
  | [] => 0
  | w :: ws => (if String.eqb word w then 1 else 0) + occurrences word ws
  end%Z.

Definition score (count k : Z) : result Float.float :=
  q ← Float.true_div count k; Float.py_round q 3.

(** What the first loop has built after the stream [l]: the dictionary
    holds the count of every token seen, every item is a positive count
    of its token, and [max_freq] is the largest count. *)
Record counted (l : list string) (tf : list (string * Z)) (max_freq : Z) : Prop := {
  counted_get : forall w,
    Dict.get tf w = if (occurrences w l =? 0)%Z then None else Some (occurrences w l);
  counted_items : Forall (fun item => 0 < item.2 <= occurrences item.1 l)%Z tf;
  counted_bound : forall w, (occurrences w l <= max_freq)%Z;
  counted_max : max_freq = 0%Z \/ exists w, occurrences w l = max_freq
}.

(** ** pscan.py: [parse_port] *)

(** What [parse_port] hands back: a list, a [range] object or a bare
    integer. *)
Inductive ports : Type :=
| PortList (l : list Z)
| PortRange (start stop : Z)
| PortInt (n : Z).

(** [[int(port) for port in port_args]] *)
Fixpoint int_all (args : list string) : result (list Z) :=
  match args with
  | [] => Ok []
  | a :: args' =>
      n ← Str.py_int a; ns ← int_all args'; Ok (n :: ns)
  end.

(** [l[i]] *)
Definition index {A} (l : list A) (i : nat) : result A :=
  match l !! i with
  | Some x => Ok x
  | None => Raise IndexError
  end.

Definition parse_port (port_args : list string) : result ports :=
  if (1 <? length port_args)%nat then
    ports ← int_all port_args; Ok (PortList ports)
  else
    arg ← index port_args 0;
    if Str.has_char "-" arg then
      let port_range := Str.split "-" arg in
      lo ← index port_range 0;
      start ← Str.py_int lo;
      hi ← index port_range 1;
      stop ← Str.py_int hi;
      Ok (PortRange start stop)
    else
      n ← Str.py_int arg; Ok (PortInt n).

(** ** The vocabulary of the specification

    Notions the specification uses to state properties and that no
    function of the scripts computes: what the scheme, the host and the
    path of a URL are.  They follow the usual reading of a URL,
    [scheme://host/path]. *)

Module Spec.

Definition is_alpha (c : ascii) : bool :=
  let n := nat_of_ascii c in
  ((65 <=? n) && (n <=? 90) || (97 <=? n) && (n <=? 122))%nat.

Definition is_scheme_char (c : ascii) : bool :=
  is_alpha c || bool_decide (is_Some (Str.digit c))
  || Ascii.eqb c "+" || Ascii.eqb c "-" || Ascii.eqb c ".".

(** Scheme characters up to a colon. *)
Fixpoint scheme_rest (s : string) : bool :=
  match s with
  | EmptyString => false
  | String c s' => if Ascii.eqb c ":" then true
                   else if is_scheme_char c then scheme_rest s' else false
  end.

(** "has a scheme": the URL begins with a letter, then letters, digits,
    [+], [-] or [.], then a colon ([http:], [https:], [ftp:],
    [mailto:], ...). *)
Definition has_scheme (u : string) : bool :=
  match u with
  | String c s' => is_alpha c && scheme_rest s'
  | EmptyString => false
  end.

(** the text after the first ["://"], if any *)
Fixpoint after_scheme (u : string) : option string :=
  match u with
  | EmptyString => None
  | String c u' =>
      if Str.startswith u "://" then Some (Str.drop 3 u) else after_scheme u'
  end.

(** the text before the first [c], all of it when there is none *)
Fixpoint before (c : ascii) (s : string) : string :=
  match s with
  | EmptyString => EmptyString
  | String c' s' => if Ascii.eqb c c' then EmptyString else String c' (before c s')
  end.

(** the text from the first [c] on, empty when there is none *)
Fixpoint from (c : ascii) (s : string) : string :=
  match s with
  | EmptyString => EmptyString
  | String c' s' => if Ascii.eqb c c' then s else from c s'
  end.

(** The domain (host) of a URL: what stands between the scheme and the
    first slash after it. *)
Definition host (u : string) : option string :=
  before "/" <$> after_scheme u.

(** The path of a URL: from the first slash after the host on. *)
Definition path (u : string) : option string :=
  from "/" <$> after_scheme u.

(** "the part after the scheme (and optional www.)" *)
Definition after_scheme_www (u : string) : option string :=
  (fun rest => if Str.startswith rest "www." then Str.drop 4 rest else rest)
    <$> after_scheme u.

End Spec.

(** ** What the URL pattern does, read off the matcher

    [domain_end s] is the text the greedy group [(.+)] ends up with when
    the pattern [(.+)\..+] is matched at the start of [s]: the group first
    runs to the end of the line and is then given back character by
    character until a dot and one more character of the line follow. *)

Module DomainEnd.

(** [s] starts with a character that [.] matches. *)
Definition head_ok (s : string) : bool :=
  match s with
  | String c _ => negb (Ascii.eqb c Str.newline)
  | EmptyString => false
  end.

(** [s] starts with a dot and a character that [.] matches: [\..+]
    matches at the start of [s]. *)
Definition tail_ok (s : string) : bool :=
  match s with
  | String c s' => Ascii.eqb "." c && head_ok s'
  | EmptyString => false
  end.

Fixpoint domain_end (s : string) : option string :=
  match s with
  | EmptyString => None
  | String c s' =>
      if Ascii.eqb c Str.newline then None
      else match domain_end s' with
           | Some a => Some (String c a)
           | None => if tail_ok s' then Some (String c EmptyString) else None
           end
  end.

(** The domain of a URL whose text after the scheme is [rest]: the
    optional [www.] is tried first. *)
Definition domain_of_rest (rest : string) : option string :=
  match (if Str.startswith rest "www." then domain_end (Str.drop 4 rest) else None) with
  | Some a => Some a
  | None => domain_end rest
  end.

(** [get_domain] on a URL whose domain, if any, is [d]. *)
Definition to_result (d : option string) : result (option string) :=
  match d with
  | Some a => Ok (Some a)
  | None => Raise AttributeError
  end.

End DomainEnd.

(** ** Observing a run *)

(** The URLs requested, in order. *)
Definition requested (tr : list event) : list string :=
  omap (fun e => match e with EvGet url => Some url | _ => None end) tr.

(** The link targets that are there ([href] present), in order. *)
Definition present (links : list (option string)) : list string :=
  omap id links.

(** ** spider.py: [mine_url] *)

Section Mine.

Variable requests_get : list event -> string -> response.
Variable soup_hrefs : string -> list (option string).
Variable soup_texts : string -> string -> list string.
Variable json_dumps : list string -> string.
Variable json_loads : string -> result (list string).

Definition mine_url (url : string) (ignored_words : gset string)
    : io (list (list string)) :=
  pages ← follow_links requests_get soup_hrefs json_dumps json_loads url;
  let paragraph_list := (fun page => get_element_texts soup_texts page "p") <$> pages in
  let word_lists :=
    (fun paragraphs => create_word_list paragraphs ignored_words) <$> paragraph_list in
  mret word_lists.

End Mine.

(** ** Observing a dictionary *)

(** The distinct tokens of a stream, each at its first occurrence. *)
Definition first_seen (word_list : list string) : list string :=
  fold_left (fun seen word => if decide (word ∈ seen) then seen else seen ++ [word])
            word_list [].

(** ** spider.py: the seed URL in [main] *)

(** ['^https?://*']: the [^] is what [re.match] does anyway, and [/*]
    is written [(/+)?], which tries the same alternatives in the same
    order.  Only whether there is a match is used. *)
Definition scheme_pattern : Re.regex :=
  Re.Cat (Re.lit "http")
 (Re.Cat (Re.Opt (Re.Chr "s"))
 (Re.Cat (Re.lit ":/")
         (Re.Opt (Re.Plus (Re.Chr "/"))))).

(** [if not re.match('^https?://*', args.url): args.url = 'http://' + args.url] *)
Definition fix_url (url : string) : string :=
  match Re.re_match scheme_pattern url with
  | None => "http://" +:+ url
  | Some _ => url
  end.

(** ** spider.py: the ranking printed by [main]

    [sorted(frequencies, key=frequencies.get, reverse=True)] orders the
    words by decreasing score.  [sorted] is stable, with [reverse=True]
    too: words with equal scores keep the order they have in the
    dictionary.  A stable sort has only one possible result; it is
    computed here by insertion, each item being put in front of the first
    item whose score is not larger. *)

Fixpoint insert_desc (item : string * Float.float)
    (sorted : list (string * Float.float)) : list (string * Float.float) :=
  match sorted with
  | [] => [item]
  | y :: ys =>
      if Float.le y.2 item.2 then item :: y :: ys
      else y :: insert_desc item ys
  end.

Definition sorted_desc (frequencies : list (string * Float.float))
    : list (string * Float.float) :=
  foldr insert_desc [] frequencies.

(** The words of the lines [main] prints: the loop stops at the first
    index above 50. *)
Definition ranking (frequencies : list (string * Float.float)) : list string :=
  take 51 (sorted_desc frequencies).*1.

(** [x] is printed before [y]: its score is not smaller. *)
Definition before (x y : string * Float.float) : Prop := Float.le y.2 x.2 = true.

(** The items with the score of [x], in their order. *)
Definition tied (x : Float.float) (l : list (string * Float.float))
    : list (string * Float.float) :=
  filter (fun y => Float.ulps y.2 = Float.ulps x) l.

(** ** spider.py: [load_ignored_words] *)

Module Lines.

(** The characters [str.strip] removes. *)
Definition is_strip_space (c : ascii) : bool :=
  let n := nat_of_ascii c in
  ((9 <=? n) && (n <=? 13) || (28 <=? n) && (n <=? 32) || (n =? 133) || (n =? 160))%nat.

Fixpoint has_space (s : string) : bool :=
  match s with
  | EmptyString => false
  | String c s' => is_strip_space c || has_space s'
  end.

Fixpoint lstrip (s : string) : string :=
  match s with
  | String c s' => if is_strip_space c then lstrip s' else s
  | EmptyString => EmptyString
  end.

Fixpoint rstrip (s : string) : string :=
  match s with
  | EmptyString => EmptyString
  | String c s' =>
      match rstrip s' with
      | EmptyString => if is_strip_space c then EmptyString else String c EmptyString
      | t => String c t
      end
  end.

(** [line.strip()] *)
Definition strip (s : string) : string := rstrip (lstrip s).

(** [file.readlines()] on a text whose line ends are newlines: every
    line keeps its newline; a last line without one is a line too. *)
Fixpoint readlines (s : string) : list string :=
  match s with
  | EmptyString => []
  | String c s' =>
      if Ascii.eqb c Str.newline then String c EmptyString :: readlines s'
      else match readlines s' with
           | [] => [String c EmptyString]
           | l :: ls => String c l :: ls
           end
  end.

End Lines.

Section Ignore.

(** [str(s)] of a set: the order of the elements is not fixed by the
    language. *)
Variable repr_set : gset string -> string.

Definition load_ignored_words (words_file : option string) : io (gset string) :=
  match words_file with
  | None => mret ∅
  | Some words_file =>
      content ← read_file words_file;
      let lines := Lines.readlines content in
      let lines := Lines.strip <$> lines in
      let ignored_words := lines ≫= Str.split " " in
      let ignored_words : gset string := list_to_set ignored_words in
      print "[*] Ignoring the following words";;
      print (repr_set ignored_words);;
      mret ignored_words
  end.

End Ignore.


(** * Properties *)

(** ** The model on concrete inputs

    Values CPython gives on the same inputs. *)

Module Examples.

Example get_domain_www : get_domain "http://www.example.com/news" = Ok (Some "example").
Proof. vm_compute. reflexivity. Qed.

Example get_domain_subdomain : get_domain "http://a.b.c/d.e/f" = Ok (Some "a.b.c/d").
Proof. vm_compute. reflexivity. Qed.

Example get_domain_localhost : get_domain "http://localhost" = Raise AttributeError.
Proof. vm_compute. reflexivity. Qed.

Example get_domain_bare_www : get_domain "http://www." = Raise AttributeError.
Proof. vm_compute. reflexivity. Qed.

Example split_spaces : Str.split " " "a  b" = ["a"; ""; "b"].
Proof. reflexivity. Qed.

Example split_empty : Str.split " " "" = [""].
Proof. reflexivity. Qed.

Example py_int_examples :
  Str.py_int " 80 " = Ok 80%Z /\ Str.py_int "-8_0" = Ok (-80)%Z /\
  Str.py_int "007" = Ok 7%Z /\ Str.py_int "8__0" = Raise ValueError /\
  Str.py_int "" = Raise ValueError /\ Str.py_int "0x10" = Raise ValueError.
Proof. repeat split. Qed.

(** [1 / 3] is [0x1.5555555555555p-2] and rounds to [0.333]. *)
Example third :
  Float.true_div 1 3 = Ok (Float.mk false 6004799503160661 (-54)) /\
  score 1 3 = Ok (Float.mk false 5998794703657501 (-54)).
Proof. vm_compute. split; reflexivity. Qed.

(** The float [1 / 2000] lies just above the decimal [0.0005]:
    [round] gives [0.001], not the even [0.0]. *)
Example above_the_tie : score 1 2000 = Ok (Float.mk false 4611686018427388 (-62)).
Proof. vm_compute. reflexivity. Qed.

(** [0.125] is a float, a true tie at two decimals: [round(1 / 8, 2)] is
    [0.12]. *)
Example true_tie :
  (q ← Float.true_div 1 8; Float.py_round q 2)
  = Float.true_div 12 100.
Proof. vm_compute. reflexivity. Qed.

Example division_by_zero : Float.true_div 1 0 = Raise ZeroDivisionError.
Proof. reflexivity. Qed.

Example division_overflow : Float.true_div (2 ^ 1024) 1 = Raise OverflowError.
Proof. vm_compute. reflexivity. Qed.

Example word_list :
  create_word_list ["Hello, World!  a I"; "It's ok-ay"] {[ "ok" ]}
  = ["hello"; "world"; "its"; "okay"].
Proof. vm_compute. reflexivity. Qed.

Example parse_port_examples :
  parse_port ["80"; "443"] = Ok (PortList [80; 443]%Z) /\
  parse_port ["1-5"] = Ok (PortRange 1 5) /\
  parse_port [] = Raise IndexError /\
  parse_port ["-5"] = Raise ValueError.
Proof. repeat split. Qed.

End Examples.

(** ** Strings *)

Module StrFacts.
Import Str.

Lemma app_nil_l s : "" +:+ s = s.
Proof. reflexivity. Qed.

Lemma app_cons c s t : String c s +:+ t = String c (s +:+ t).
Proof. reflexivity. Qed.

Lemma has_char_app c s t :
  has_char c (s +:+ t) = has_char c s || has_char c t.
Proof.
  induction s as [|c' s IH]; [reflexivity|].
  rewrite app_cons. simpl. destruct (Ascii.eqb c c'); [reflexivity|exact IH].
Qed.

Lemma app_empty_r s : s +:+ "" = s.
Proof. induction s as [|c s IH]; [reflexivity|]. by rewrite app_cons, IH. Qed.

Lemma app_assoc s t u : (s +:+ t) +:+ u = s +:+ (t +:+ u).
Proof. induction s as [|c s IH]; [reflexivity|]. by rewrite !app_cons, IH. Qed.

Lemma length_app s t :
  String.length (s +:+ t) = (String.length s + String.length t)%nat.
Proof. induction s as [|c s IH]; [reflexivity|]. rewrite app_cons. simpl. by rewrite IH. Qed.

Lemma prefix_app p s : String.prefix p (p +:+ s) = true.
Proof.
  induction p as [|c p IH]; [by destruct s|].
  rewrite app_cons. simpl. destruct (ascii_dec c c); [exact IH|congruence].
Qed.

Lemma prefix_inv p s : String.prefix p s = true -> exists t, s = p +:+ t.
Proof.
  revert s. induction p as [|c p IH]; intros s H.
  - by exists s.
  - destruct s as [|c' s]; simpl in H; [discriminate|].
    destruct (ascii_dec c c') as [->|]; [|discriminate].
    destruct (IH _ H) as [t ->]. by exists t.
Qed.

Lemma startswith_app p s : startswith (p +:+ s) p = true.
Proof. apply prefix_app. Qed.

Lemma startswith_inv s p : startswith s p = true -> exists t, s = p +:+ t.
Proof. apply prefix_inv. Qed.

(** A prefix of a prefix. *)
Lemma startswith_trans s p q :
  startswith s p = true -> startswith p q = true -> startswith s q = true.
Proof.
  intros [t ->]%startswith_inv [u ->]%startswith_inv.
  rewrite app_assoc. apply startswith_app.
Qed.

End StrFacts.

(** ** The matcher only accepts words of the pattern *)

Module ReFacts.
Import Re.

(** Whatever [run] answers comes from the continuation, called on what is
    left after a word of the pattern. *)
Lemma run_sound r : forall s g k m,
  run r s g k = Some m ->
  exists u s' g', s = u +:+ s' /\ matches r u /\ k s' g' = Some m.
Proof.
  induction r as [|c| |r1 IH1 r2 IH2|r IH|r IH|n r IH]; intros s g k m H; simpl in H.
  - exists "", s, g. repeat split; [constructor|done].
  - destruct s as [|c' s]; [discriminate|].
    destruct (Ascii.eqb_spec c c') as [->|]; [|discriminate].
    exists (String c' ""), s, g. repeat split; [constructor|done].
  - destruct s as [|c' s]; [discriminate|].
    destruct (Ascii.eqb_spec c' Str.newline) as [|Hc]; [discriminate|].
    exists (String c' ""), s, g. repeat split; [by constructor|done].
  - apply IH1 in H as (u & s1 & g1 & -> & Hu & H).
    apply IH2 in H as (v & s2 & g2 & -> & Hv & H).
    exists (u +:+ v), s2, g2. rewrite StrFacts.app_assoc.
    repeat split; [by constructor|done].
  - destruct (run r s g k) as [m'|] eqn:E.
    + apply IH in E as (u & s' & g' & -> & Hu & E).
      exists u, s', g'. repeat split; [by constructor|congruence].
    + exists "", s, g. repeat split; [constructor|done].
  - revert H. generalize (String.length s) at 1. intros fuel. revert s g.
    induction fuel as [|fuel IHf]; intros s g H; simpl in H.
    + apply IH in H as (u & s' & g' & -> & Hu & H).
      exists u, s', g'. repeat split; [by constructor|done].
    + apply IH in H as (u & s' & g' & -> & Hu & H).
      destruct (String.length s' <? _)%nat.
      * destruct (plus_loop (run r) k fuel s' g') as [m'|] eqn:E.
        -- injection H as ->.
           apply IHf in E as (v & s2 & g2 & -> & Hv & E).
           exists (u +:+ v), s2, g2. rewrite StrFacts.app_assoc.
           repeat split; [by apply m_plus_more|done].
        -- exists u, s', g'. repeat split; [by constructor|done].
      * exists u, s', g'. repeat split; [by constructor|done].
  - apply IH in H as (u & s' & g' & -> & Hu & H).
    eexists u, s', _. repeat split; [by constructor|exact H].
Qed.

Lemma re_match_sound r s m :
  re_match r s = Some m -> exists u s', s = u +:+ s' /\ matches r u.
Proof.
  intros (u & s' & _ & ? & ? & _)%run_sound. by exists u, s'.
Qed.

Lemma matches_cat_inv r1 r2 u :
  matches (Cat r1 r2) u ->
  exists u1 u2, u = u1 +:+ u2 /\ matches r1 u1 /\ matches r2 u2.
Proof. intros H. inversion H; subst. eauto. Qed.

Lemma matches_chr_inv c u : matches (Chr c) u -> u = String c "".
Proof. intros H. by inversion H. Qed.

Lemma matches_opt_inv r u : matches (Opt r) u -> u = "" \/ matches r u.
Proof. intros H. inversion H; subst; eauto. Qed.

Lemma matches_group_inv n r u : matches (Group n r) u -> matches r u.
Proof. intros H. by inversion H. Qed.

Lemma matches_lit p u : matches (lit p) u -> u = p.
Proof.
  revert u. induction p as [|c p IH]; intros u H.
  - by inversion H.
  - apply matches_cat_inv in H as (u1 & u2 & -> & H1 & H2).
    apply matches_chr_inv in H1 as ->. by rewrite (IH _ H2).
Qed.

Lemma matches_plus_any u : matches (Plus Any) u -> u <> "".
Proof.
  intros H. remember (Plus Any) as r eqn:Er.
  induction H as [| | | | | |r u H|r u v H _ _ _|]; try discriminate.
  - injection Er as ->. by inversion H.
  - injection Er as ->. by inversion H.
Qed.

End ReFacts.

(** ** [get_domain] *)

(** The shape of every text the URL pattern matches. *)
Lemma domain_pattern_words u :
  Re.matches domain_pattern u ->
  exists s w a b,
    u = "http" +:+ s +:+ "://" +:+ w +:+ a +:+ "." +:+ b /\
    (s = "" \/ s = "s") /\ (w = "" \/ w = "www.") /\ a <> "" /\ b <> "".
Proof.
  unfold domain_pattern. intros H.
  apply ReFacts.matches_cat_inv in H as (u1 & ? & -> & ->%ReFacts.matches_lit & H).
  apply ReFacts.matches_cat_inv in H as (s & ? & -> & Hs & H).
  apply ReFacts.matches_cat_inv in H as (u3 & ? & -> & ->%ReFacts.matches_lit & H).
  apply ReFacts.matches_cat_inv in H as (w & ? & -> & Hw & H).
  apply ReFacts.matches_cat_inv in H as (a & ? & -> & Ha%ReFacts.matches_group_inv & H).
  apply ReFacts.matches_cat_inv in H as (? & b & -> & ->%ReFacts.matches_chr_inv & Hb).
  exists s, w, a, b. split; [reflexivity|].
  split; [|split; [|split]].
  - apply ReFacts.matches_opt_inv in Hs as [-> | ->%ReFacts.matches_chr_inv]; auto.
  - apply ReFacts.matches_opt_inv in Hw as [-> | Hw]; [by left|right].
    by apply ReFacts.matches_group_inv, ReFacts.matches_lit in Hw.
  - by apply ReFacts.matches_plus_any.
  - by apply ReFacts.matches_plus_any.
Qed.

(** A URL on which [get_domain] returns starts with the scheme and has a
    dot further on. *)
Lemma get_domain_ok_shape url d :
  get_domain url = Ok d ->
  exists s rest,
    url = "http" +:+ s +:+ "://" +:+ rest /\ (s = "" \/ s = "s") /\
    Str.has_char "." rest = true.
Proof.
  unfold get_domain. intros H.
  destruct (Re.re_match domain_pattern url) as [m|] eqn:E; [|discriminate].
  apply ReFacts.re_match_sound in E as (u & s' & -> & Hu).
  apply domain_pattern_words in Hu as (s & w & a & b & -> & Hs & _ & _ & _).
  exists s, (w +:+ a +:+ "." +:+ b +:+ s'). split; [|split; [done|]].
  - by rewrite !StrFacts.app_assoc.
  - rewrite !StrFacts.has_char_app. simpl. by rewrite !orb_true_r.
Qed.

(** [get_domain] has one way to fail. *)
Lemma get_domain_cases url :
  get_domain url = Raise AttributeError \/ exists d, get_domain url = Ok d.
Proof.
  unfold get_domain. destruct (Re.re_match domain_pattern url); eauto.
Qed.

Lemma get_domain_needs_scheme url d :
  get_domain url = Ok d ->
  Str.startswith url "http://" = true \/ Str.startswith url "https://" = true.
Proof.
  intros (s & rest & -> & [-> | ->] & _)%get_domain_ok_shape.
  - left. apply (StrFacts.startswith_app "http://").
  - right. apply (StrFacts.startswith_app "https://").
Qed.

Lemma get_domain_needs_dot scheme rest d :
  scheme = "http://" \/ scheme = "https://" ->
  get_domain (scheme +:+ rest) = Ok d ->
  Str.has_char "." rest = true.
Proof.
  intros Hscheme (s & rest' & E & Hs & Hdot)%get_domain_ok_shape.
  destruct Hscheme as [-> | ->], Hs as [-> | ->];
    rewrite ?StrFacts.app_cons, ?StrFacts.app_nil_l in E;
    by simplify_eq.
Qed.

(** C1, at the two pages [a.html] and [b.html] of the site [example.com]:
    the URLs have the same domain and differ in their path only, and
    [follow_links] computes two different cache-file names for them,
    ["example.com/a.json"] and ["example.com/b.json"], because the greedy
    [(.+)] of the pattern runs on to the last dot of the whole URL. *)
Theorem cache_fname_depends_on_path :
  Spec.host "http://example.com/a.html" = Some "example.com" /\
  Spec.host "http://example.com/b.html" = Some "example.com" /\
  Spec.path "http://example.com/a.html" = Some "/a.html" /\
  Spec.path "http://example.com/b.html" = Some "/b.html" /\
  cache_fname "http://example.com/a.html" = Ok "example.com/a.json" /\
  cache_fname "http://example.com/b.html" = Ok "example.com/b.json".
Proof. repeat split; vm_compute; reflexivity. Qed.

(** C9: for every seed URL that starts neither with [http://] nor with
    [https://], [follow_links] raises the exception of the failed domain
    extraction ([AttributeError], the specification's DomainParseError)
    and leaves the world as it found it: nothing was printed, no request
    went out, no file was touched. *)
Theorem follow_links_rejects_missing_scheme
    (requests_get : list event -> string -> response)
    (soup_hrefs : string -> list (option string))
    (json_dumps : list string -> string)
    (json_loads : string -> result (list string))
    (url : string) (w : world) :
  Str.startswith url "http://" = false ->
  Str.startswith url "https://" = false ->
  follow_links requests_get soup_hrefs json_dumps json_loads url w
  = (Raise AttributeError, w).
Proof.
  intros H1 H2.
  assert (get_domain url = Raise AttributeError) as E.
  { destruct (get_domain_cases url) as [E | [d E]]; [exact E|].
    apply get_domain_needs_scheme in E as [E | E]; congruence. }
  unfold follow_links, cache_fname. rewrite E. reflexivity.
Qed.

Lemma follow_links_rejects_missing_scheme_witness :
  follow_links (fun _ _ => RespText "") (fun _ => []) (fun _ => "[]")
    (fun _ => Ok []) "example.com/index.html" (mkWorld [] ∅)
  = (Raise AttributeError, mkWorld [] ∅).
Proof.
  apply follow_links_rejects_missing_scheme; vm_compute; reflexivity.
Defined.

(** C10, as it holds: a URL made of the scheme prefix [http://] or
    [https://] and a rest without any dot makes [get_domain] fail; the
    prefix alone does not give a cache key. *)
Theorem get_domain_fails_without_dot (scheme rest : string) :
  scheme = "http://" \/ scheme = "https://" ->
  Str.has_char "." rest = false ->
  get_domain (scheme +:+ rest) = Raise AttributeError.
Proof.
  intros Hscheme Hdot.
  destruct (get_domain_cases (scheme +:+ rest)) as [E | [d E]]; [exact E|].
  apply get_domain_needs_dot in E; [congruence|exact Hscheme].
Qed.

Lemma get_domain_fails_without_dot_witness :
  get_domain ("http://" +:+ "localhost") = Raise AttributeError.
Proof.
  apply get_domain_fails_without_dot; [by left|vm_compute; reflexivity].
Defined.

(** C10 as written fails at [http://www.localhost]: what follows the
    scheme and the optional [www.] is [localhost], without a dot, and
    [get_domain] returns ["www"], the optional group being given up so
    that the dot of [www.] serves as the separating dot. *)
Lemma get_domain_www_localhost :
  Str.startswith "http://www.localhost" "http://" = true /\
  Spec.after_scheme_www "http://www.localhost" = Some "localhost" /\
  Str.has_char "." "localhost" = false /\
  get_domain "http://www.localhost" = Ok (Some "www").
Proof. repeat split; vm_compute; reflexivity. Qed.

(** ** [retrieve_page] *)

(** C4, as it holds: a URL that starts with [http], as every URL with
    the scheme [http] or [https] does, is left as it is whatever the
    base. *)
Theorem resolve_http_unchanged (u base : string) :
  Str.startswith u "http" = true -> resolve u base = u.
Proof. unfold resolve. by intros ->. Qed.

Lemma resolve_http_unchanged_witness :
  resolve "https://example.com/a" "http://base.org" = "https://example.com/a".
Proof. apply resolve_http_unchanged. vm_compute. reflexivity. Defined.

(** C4 as written fails at [ftp://example.com/f]: the URL has a scheme,
    and the base is put in front of it. *)
Lemma resolve_rewrites_ftp :
  Spec.has_scheme "ftp://example.com/f" = true /\
  resolve "ftp://example.com/f" "http://base.org"
  = "http://base.orgftp://example.com/f" /\
  resolve "ftp://example.com/f" "http://base.org" <> "ftp://example.com/f".
Proof.
  split; [vm_compute; reflexivity|].
  split; [vm_compute; reflexivity|].
  intros H. vm_compute in H. discriminate.
Qed.

(** C2, as it holds: on an absent link target ([None]) the fetch returns
    the empty string and leaves the world as it found it, whatever the
    base and the network: no line is printed, no request goes out, no
    sleep. *)
Theorem retrieve_page_absent
    (requests_get : list event -> string -> response) (base : string) (w : world) :
  retrieve_page requests_get None base w = (Ok "", w).
Proof. reflexivity. Qed.

(** C2 as written fails at the empty link target: [''] does not start
    with [http], the base is put in front of it and the base page itself
    is requested; its text is returned. *)
Lemma retrieve_page_empty_target :
  retrieve_page (fun _ _ => RespText "<html></html>") (Some "") "http://ex.com"
    (mkWorld [] ∅)
  = (Ok "<html></html>",
     mkWorld [EvPrint "[+] Retrieving http://ex.com"; EvGet "http://ex.com";
              EvSleep 200] ∅).
Proof. reflexivity. Qed.

(** C3, as it holds: when the GET succeeds the call prints its line,
    issues the request, sleeps 200 ms and returns the text; when the GET
    raises, the call prints its line, issues the request, prints the two
    error lines and returns the empty string, without any sleep. *)
Theorem retrieve_page_sleeps_on_success
    (requests_get : list event -> string -> response)
    (u base : string) (w : world) :
  let url := resolve u base in
  let line := EvPrint ("[+] Retrieving " +:+ url) in
  (forall content,
     requests_get (trace w ++ [line]) url = RespText content ->
     retrieve_page requests_get (Some u) base w
     = (Ok content,
        mkWorld (((trace w ++ [line]) ++ [EvGet url]) ++ [EvSleep 200]) (files w))) /\
  (forall msg,
     requests_get (trace w ++ [line]) url = RespError msg ->
     retrieve_page requests_get (Some u) base w
     = (Ok "",
        mkWorld ((((trace w ++ [line]) ++ [EvGet url])
                  ++ [EvPrint "[-] Error retrieving page content"])
                  ++ [EvPrint ("[-] " +:+ msg)]) (files w))).
Proof.
  intros url line. split; intros x Hx;
    unfold retrieve_page, mbind, io_bind, print, sleep, emit, http_get, mret, io_ret;
    fold url; fold line; simpl; by rewrite Hx.
Qed.

Lemma retrieve_page_sleeps_on_success_witness :
  retrieve_page (fun _ _ => RespText "<p>hi</p>") (Some "/x") "http://ex.com"
    (mkWorld [] ∅)
  = (Ok "<p>hi</p>",
     mkWorld [EvPrint "[+] Retrieving http://ex.com/x"; EvGet "http://ex.com/x";
              EvSleep 200] ∅).
Proof.
  apply (proj1 (retrieve_page_sleeps_on_success
                  (fun _ _ => RespText "<p>hi</p>") "/x" "http://ex.com"
                  (mkWorld [] ∅)) "<p>hi</p>").
  reflexivity.
Defined.

(** C3 as written fails when the GET raises: the request went out and
    the call returns without having slept. *)
Lemma retrieve_page_no_sleep_after_error :
  let out := retrieve_page (fun _ _ => RespError "timed out")
               (Some "http://ex.com/x") "http://ex.com" (mkWorld [] ∅) in
  out.1 = Ok "" /\
  trace out.2 = [EvPrint "[+] Retrieving http://ex.com/x"; EvGet "http://ex.com/x";
                 EvPrint "[-] Error retrieving page content";
                 EvPrint "[-] timed out"] /\
  existsb is_get (trace out.2) = true /\
  existsb is_sleep (trace out.2) = false.
Proof. repeat split. Qed.

(** ** [calculate_tf] on the empty stream *)

(** C5: on the empty token stream the first loop leaves [max_freq] at 0,
    the second loop has no item to divide, and the empty mapping is
    returned. *)
Theorem calculate_tf_empty :
  (fold_left count_word [] ([], 0%Z)).2 = 0%Z /\ calculate_tf [] = Ok [].
Proof. split; reflexivity. Qed.

(** ** [parse_port] *)

(** C6, at the single argument ["80"]: [parse_port] returns the bare
    integer 80, neither a list nor a range. *)
Theorem parse_port_single_is_int : parse_port ["80"] = Ok (PortInt 80).
Proof. reflexivity. Qed.

(** ** [create_word_list] *)

Module WordFacts.
Import Str.

Lemma has_char_cons c c' s :
  has_char c (String c' s) = if Ascii.eqb c c' then true else has_char c s.
Proof. reflexivity. Qed.

Lemma lower_cons c s : lower (String c s) = String (lower_char c) (lower s).
Proof. reflexivity. Qed.

Lemma keep_cons p c s :
  keep p (String c s) = if p c then String c (keep p s) else keep p s.
Proof. reflexivity. Qed.

Lemma length_keep p s : (String.length (keep p s) <= String.length s)%nat.
Proof.
  induction s as [|c s IH]; [done|]. rewrite keep_cons.
  destruct (p c); simpl; lia.
Qed.

Ltac all_chars c :=
  destruct c as [[|] [|] [|] [|] [|] [|] [|] [|]]; vm_compute; try reflexivity.

Lemma lower_char_idem c : lower_char (lower_char c) = lower_char c.
Proof. all_chars c. Qed.

Lemma lower_char_punct c :
  has_char (lower_char c) punctuation = has_char c punctuation.
Proof. all_chars c. Qed.

Lemma lower_char_space c : Ascii.eqb " " (lower_char c) = Ascii.eqb " " c.
Proof. all_chars c. Qed.

Lemma lower_idem s : lower (lower s) = lower s.
Proof.
  induction s as [|c s IH]; simpl; [reflexivity|].
  by rewrite lower_char_idem, IH.
Qed.

Lemma has_char_lower s : has_char " " (lower s) = has_char " " s.
Proof.
  induction s as [|c s IH]; [reflexivity|].
  by rewrite lower_cons, !has_char_cons, lower_char_space, IH.
Qed.

Lemma has_char_keep c p s : has_char c s = false -> has_char c (keep p s) = false.
Proof.
  induction s as [|c' s IH]; [done|]. rewrite keep_cons, has_char_cons.
  destruct (Ascii.eqb c c') eqn:E; [done|]. intros H.
  destruct (p c'); [rewrite has_char_cons, E|]; auto.
Qed.

Lemma keep_idem p s : keep p (keep p s) = keep p s.
Proof.
  induction s as [|c s IH]; [reflexivity|]. rewrite keep_cons.
  destruct (p c) eqn:E; [rewrite keep_cons, E; by f_equal|exact IH].
Qed.

(** Lowering the case brings no punctuation back. *)
Lemma unpunct_lower s : unpunct s = s -> unpunct (lower s) = lower s.
Proof.
  unfold unpunct. set (p := fun c => negb (has_char c punctuation)).
  assert (forall c, p (lower_char c) = p c) as Hp.
  { intros c. unfold p. by rewrite lower_char_punct. }
  induction s as [|c s IH]; [reflexivity|].
  rewrite lower_cons, !keep_cons, Hp.
  destruct (p c) eqn:E.
  - intros H. injection H as H. by rewrite IH.
  - intros H. exfalso.
    pose proof (length_keep p s) as Hlen.
    rewrite H in Hlen. simpl in Hlen. lia.
Qed.

(** The fields of a split hold no separator. *)
Lemma split_no_sep sep s : Forall (fun w => has_char sep w = false) (split sep s).
Proof.
  induction s as [|c s IH]; simpl; [by repeat constructor|].
  destruct (Ascii.eqb_spec c sep) as [->|Hne].
  - by constructor.
  - destruct (split sep s) as [|w ws]; inversion IH; subst.
    + repeat constructor. simpl. destruct (Ascii.eqb_spec sep c); congruence.
    + constructor; [|done]. simpl. by destruct (Ascii.eqb_spec sep c); [congruence|].
Qed.

(** A string without the separator is its own single field. *)
Lemma split_without_sep sep s : has_char sep s = false -> split sep s = [s].
Proof.
  induction s as [|c s IH]; simpl; [reflexivity|].
  rewrite (Ascii.eqb_sym c sep).
  destruct (Ascii.eqb sep c); [discriminate|]. intros H. by rewrite IH.
Qed.

Lemma create_word_list_app l1 l2 ignored_words :
  create_word_list (l1 ++ l2) ignored_words
  = create_word_list l1 ignored_words ++ create_word_list l2 ignored_words.
Proof.
  unfold create_word_list. by rewrite bind_app, !fmap_app, filter_app.
Qed.

(** Every token that [create_word_list] returns is normal. *)
Lemma create_word_list_normal elements ignored_words :
  Forall (normal ignored_words) (create_word_list elements ignored_words).
Proof.
  apply Forall_forall. intros w. unfold create_word_list.
  rewrite list_elem_of_filter, list_elem_of_fmap.
  intros [[Hlen Hign] (w1 & -> & Hw1)].
  apply list_elem_of_fmap in Hw1 as (w0 & -> & Hw0).
  apply list_elem_of_bind in Hw0 as (e & Hw0 & _).
  pose proof (split_no_sep " " e) as Hsp.
  rewrite Forall_forall in Hsp. specialize (Hsp _ Hw0).
  repeat split; [| | |exact Hlen|exact Hign].
  - rewrite has_char_lower. by apply has_char_keep.
  - apply lower_idem.
  - apply unpunct_lower, keep_idem.
Qed.

(** On normal tokens [create_word_list] changes nothing. *)
Lemma create_word_list_fixes_normal tokens ignored_words :
  Forall (normal ignored_words) tokens ->
  create_word_list tokens ignored_words = tokens.
Proof.
  induction 1 as [|w l (Hsp & Hlow & Hpun & Hlen & Hign) _ IH]; [reflexivity|].
  change (w :: l) with ([w] ++ l). rewrite create_word_list_app, IH. f_equal.
  unfold create_word_list. rewrite bind_cons, (split_without_sep _ _ Hsp).
  simpl. rewrite Hpun, Hlow.
  by rewrite filter_cons_True.
Qed.

(** [create_word_list] is idempotent on every input. *)
Lemma create_word_list_idempotent elements ignored_words :
  create_word_list (create_word_list elements ignored_words) ignored_words
  = create_word_list elements ignored_words.
Proof. apply create_word_list_fixes_normal, create_word_list_normal. Qed.

End WordFacts.

(** C8: on a token list whose tokens are in lower case, free of
    punctuation, longer than one character and outside the ignore set,
    normalizing twice gives what normalizing once gives. *)
Theorem create_word_list_twice (ignored_words : gset string) (tokens : list string) :
  Forall (clean_token ignored_words) tokens ->
  create_word_list (create_word_list tokens ignored_words) ignored_words
  = create_word_list tokens ignored_words.
Proof. intros _. apply WordFacts.create_word_list_idempotent. Qed.

Lemma create_word_list_twice_witness :
  create_word_list (create_word_list ["hello"; "big world"; "its"] {[ "the" ]}) {[ "the" ]}
  = create_word_list ["hello"; "big world"; "its"] {[ "the" ]}.
Proof.
  apply create_word_list_twice.
  repeat constructor; try (vm_compute; lia); by vm_compute.
Defined.

(** ** Floats: quotients of counts stay within [0, 1] *)

Module FloatFacts.
Import Float.
Local Open Scope Z_scope.

Lemma shl_neg x e : e <= 0 -> shl x e = x.
Proof. intros H. unfold shl. rewrite Z.max_l by lia. simpl. lia. Qed.

Lemma shl_pos x e : 0 <= e -> shl x e = x * 2 ^ e.
Proof. intros H. unfold shl. by rewrite Z.max_r by lia. Qed.

(** Rounding a ratio that is at most the integer [N] gives at most [N]. *)
Lemma rne_div_le p q N : 0 < q -> p <= N * q -> rne_div p q <= N.
Proof.
  intros Hq Hp. unfold rne_div.
  pose proof (Z.div_mod p q ltac:(lia)) as Hdm.
  pose proof (Z.mod_pos_bound p q Hq) as Hm.
  assert (p / q <= N) as Hf by (apply Z.div_le_upper_bound; lia).
  destruct (Z.eq_dec (p / q) N) as [E|E].
  - assert (p mod q = 0) as -> by nia.
    replace (2 * 0) with 0 by lia.
    destruct (Z.compare_spec 0 q); lia.
  - destruct (_ ?= _); [destruct (Z.even _)| |]; lia.
Qed.

Lemma rne_div_nonneg p q : 0 <= p -> 0 < q -> 0 <= rne_div p q.
Proof.
  intros Hp Hq. unfold rne_div.
  assert (0 <= p / q) by (apply Z.div_pos; lia).
  destruct (_ ?= _); [destruct (Z.even _)| |]; lia.
Qed.

Lemma rne_div_exact a q : 0 < q -> rne_div (a * q) q = a.
Proof.
  intros Hq. unfold rne_div.
  rewrite Z.div_mul, Z.mod_mul by lia.
  replace (2 * 0) with 0 by lia.
  by destruct (Z.compare_spec 0 q); try lia.
Qed.

(** The float nearest to a ratio [n / d <= 1] exists and is at most 1:
    in units of [2^-1074] it is at most [2^1074]. *)
Lemma nearest_le_one n d :
  0 <= n <= d -> 0 < d ->
  exists m e, nearest n d = Some (m, e) /\
    emin <= e /\ 0 <= m /\ m * 2 ^ (e - emin) <= 2 ^ 1074.
Proof.
  intros Hn Hd. unfold nearest.
  destruct (Z.eqb_spec n 0) as [->|Hn0].
  { exists 0, emin. repeat split; [lia|lia|]. simpl. apply Z.pow_nonneg. lia. }
  set (e := Z.max (floor_log2_ratio n d - 52) emin).
  assert (emin <= e <= -52) as He.
  { subst e. unfold floor_log2_ratio, emin.
    pose proof (Z.log2_le_mono n d ltac:(lia)).
    destruct (_ <=? _); lia. }
  rewrite (shl_neg d e), (shl_pos n (- e)) by (unfold emin in He; lia).
  set (m := rne_div (n * 2 ^ (- e)) d).
  assert (0 < 2 ^ (- e)) as Hpow by (apply Z.pow_pos_nonneg; lia).
  assert (0 <= m <= 2 ^ (- e)) as Hm.
  { subst m. split; [apply rne_div_nonneg; nia|apply rne_div_le; nia]. }
  assert (2 ^ (- e) * 2 ^ (e - emin) = 2 ^ 1074) as Hsplit.
  { rewrite <- Z.pow_add_r by lia. f_equal. unfold emin. lia. }
  assert (0 < 2 ^ (e - emin)) as Hpow' by (apply Z.pow_pos_nonneg; lia).
  destruct (Z.eqb_spec m (2 ^ 53)) as [E|E].
  - assert ((emax <? e + 1) = false) as -> by (apply Z.ltb_ge; unfold emax; lia).
    exists (2 ^ 52), (e + 1). repeat split; [lia|lia|].
    replace (e + 1 - emin) with (1 + (e - emin)) by lia.
    rewrite Z.pow_add_r by lia.
    replace (2 ^ 52 * (2 ^ 1 * 2 ^ (e - emin))) with (2 ^ 53 * 2 ^ (e - emin)) by lia.
    rewrite <- E. nia.
  - assert ((emax <? e) = false) as -> by (apply Z.ltb_ge; unfold emax; lia).
    exists m, e. repeat split; [lia|lia|nia].
Qed.

(** [k / k] is [1.0]. *)
Lemma nearest_same k : 0 < k -> nearest k k = Some (2 ^ 52, -52).
Proof.
  intros Hk. unfold nearest.
  destruct (Z.eqb_spec k 0) as [|_]; [lia|].
  assert (floor_log2_ratio k k = 0) as ->.
  { unfold floor_log2_ratio. rewrite Z.sub_diag. simpl.
    by rewrite Z.leb_refl. }
  change (Z.max (0 - 52) emin) with (-52).
  rewrite (shl_neg k (-52)), (shl_pos k (- -52)) by lia.
  rewrite Z.mul_comm, rne_div_exact by lia.
  reflexivity.
Qed.

Lemma true_div_same k : 0 < k -> true_div k k = Ok one.
Proof.
  intros Hk. unfold true_div.
  destruct (Z.eqb_spec k 0) as [|_]; [lia|].
  rewrite Z.abs_eq, nearest_same by lia.
  by destruct (k <? 0).
Qed.

Lemma py_round_one : py_round one 3 = Ok one.
Proof. vm_compute. reflexivity. Qed.

(** A count divided by a count that is not smaller: the quotient is a
    float between 0 and 1. *)
Lemma true_div_le_one c k :
  0 < c <= k ->
  exists q, true_div c k = Ok q /\ neg q = false /\
    emin <= expo q /\ 0 <= mant q /\ ulps q <= 2 ^ 1074.
Proof.
  intros Hc. unfold true_div.
  destruct (Z.eqb_spec k 0) as [|_]; [lia|].
  rewrite !Z.abs_eq by lia.
  destruct (nearest_le_one c k) as (m & e & -> & He & Hm & Hv); [lia|lia|].
  eexists. split; [reflexivity|].
  assert ((c <? 0) = false) as -> by (apply Z.ltb_ge; lia).
  assert ((k <? 0) = false) as -> by (apply Z.ltb_ge; lia).
  unfold ulps. simpl. repeat split; [lia|lia|lia].
Qed.

(** Rounding a float between 0 and 1 to three decimals stays at most 1. *)
Lemma py_round_le_one q :
  neg q = false -> emin <= expo q -> 0 <= mant q -> ulps q <= 2 ^ 1074 ->
  exists s, py_round q 3 = Ok s /\ le s one = true.
Proof.
  destruct q as [sg m e]. unfold ulps. simpl. intros -> He Hm Hv.
  unfold py_round. simpl neg; simpl mant; simpl expo.
  change (323 <? 3)%nat with false. cbv iota.
  change (10 ^ Z.of_nat 3) with 1000.
  set (t := rne_div (shl (m * 1000) e) (shl 1 (- e))).
  assert (0 < 2 ^ (e - emin)) as Hpow by (apply Z.pow_pos_nonneg; lia).
  assert (0 <= t <= 1000) as Ht.
  { subst t. destruct (Z.le_gt_cases 0 e) as [Hpos|Hneg].
    - rewrite (shl_pos _ e), (shl_neg _ (- e)) by lia.
      assert (0 < 2 ^ e) by (apply Z.pow_pos_nonneg; lia).
      assert (m * 2 ^ e <= 1).
      { replace (e - emin) with (e + 1074) in Hv by (unfold emin; lia).
        rewrite Z.pow_add_r in Hv by lia.
        assert (0 < 2 ^ 1074) by (apply Z.pow_pos_nonneg; lia). nia. }
      split; [apply rne_div_nonneg; nia|apply rne_div_le; nia].
    - rewrite (shl_neg _ e), (shl_pos _ (- e)) by lia.
      assert (0 < 2 ^ (- e)) by (apply Z.pow_pos_nonneg; lia).
      assert (m <= 2 ^ (- e)).
      { assert (2 ^ (- e) * 2 ^ (e - emin) = 2 ^ 1074) as Hsplit.
        { rewrite <- Z.pow_add_r by lia. f_equal. unfold emin. lia. }
        nia. }
      split; [apply rne_div_nonneg; nia|apply rne_div_le; nia]. }
  destruct (nearest_le_one t 1000) as (m' & e' & -> & He' & Hm' & Hv'); [lia|lia|].
  eexists. split; [reflexivity|].
  unfold le, ulps. simpl neg; simpl mant; simpl expo.
  apply Z.leb_le.
  change (1 * 2 ^ 52 * 2 ^ (-52 - emin)) with (2 ^ 1074). lia.
Qed.

End FloatFacts.

(** ** [calculate_tf] *)

Module TfFacts.
Local Open Scope Z_scope.

Lemma get_set {V} (d : list (string * V)) k v k' :
  Dict.get (Dict.set d k v) k' = if String.eqb k' k then Some v else Dict.get d k'.
Proof.
  induction d as [|[k0 v0] d IH]; simpl.
  - reflexivity.
  - destruct (String.eqb_spec k k0) as [->|Hk]; simpl.
    + by destruct (String.eqb k' k0).
    + destruct (String.eqb_spec k' k0) as [->|Hk'].
      * by destruct (String.eqb_spec k0 k); [congruence|].
      * exact IH.
Qed.

(** Items of an updated dictionary: old items, or the new one. *)
Lemma Forall_set {V} (P : string * V -> Prop) d k v :
  Forall P d -> P (k, v) -> Forall P (Dict.set d k v).
Proof.
  induction 1 as [|[k0 v0] d H0 Hd IH]; intros Hkv; simpl.
  - by repeat constructor.
  - destruct (String.eqb_spec k k0) as [->|Hk]; constructor; auto.
Qed.

Lemma occurrences_nonneg w l : 0 <= occurrences w l.
Proof. induction l as [|x l IH]; simpl; [lia|]. destruct (String.eqb w x); lia. Qed.

Lemma occurrences_snoc w l x :
  occurrences w (l ++ [x]) = occurrences w l + (if String.eqb w x then 1 else 0).
Proof. induction l as [|y l IH]; simpl; [lia|]. rewrite IH. lia. Qed.

Lemma occurrences_pos w l : w ∈ l -> 0 < occurrences w l.
Proof.
  induction 1 as [x l|x y l _ IH]; simpl.
  - rewrite String.eqb_refl. pose proof (occurrences_nonneg x l). lia.
  - destruct (String.eqb x y); lia.
Qed.

Lemma first_loop l :
  counted l (fold_left count_word l ([], 0)).1 (fold_left count_word l ([], 0)).2.
Proof.
  induction l as [|x l IH] using rev_ind.
  - split; simpl; auto. intros; lia.
  - rewrite fold_left_app. simpl.
    destruct (fold_left count_word l ([], 0)) as [tf mx]. simpl in IH.
    destruct IH as [Hget Hitems Hbound Hmax].
    unfold count_word.
    assert (default 0 (Dict.get tf x) = occurrences x l) as Hx.
    { rewrite Hget. pose proof (occurrences_nonneg x l).
      destruct (Z.eqb_spec (occurrences x l) 0); simpl; lia. }
    rewrite Hx. simpl.
    pose proof (occurrences_nonneg x l) as Hx0.
    split.
    + intros w. rewrite get_set, occurrences_snoc.
      destruct (String.eqb_spec w x) as [->|Hw].
      * destruct (Z.eqb_spec (occurrences x l + 1) 0); [lia|done].
      * by rewrite Z.add_0_r.
    + apply Forall_set.
      * eapply Forall_impl; [exact Hitems|].
        intros [w c]. simpl. rewrite occurrences_snoc.
        destruct (String.eqb w x); lia.
      * simpl. rewrite occurrences_snoc, String.eqb_refl. lia.
    + intros w. rewrite occurrences_snoc.
      pose proof (Hbound x) as Hbx. specialize (Hbound w).
      destruct (String.eqb_spec w x) as [->|Hw];
        destruct (Z.ltb_spec mx (occurrences x l + 1)); lia.
    + right. destruct (Z.ltb_spec mx (occurrences x l + 1)) as [Hlt|Hge].
      * exists x. rewrite occurrences_snoc, String.eqb_refl. lia.
      * destruct Hmax as [->|[w Hw]]; [lia|].
        exists w. rewrite occurrences_snoc.
        destruct (String.eqb_spec w x) as [->|_]; lia.
Qed.

(** The second loop succeeds when every count is positive and at most
    [max_freq]; each token then holds its rounded quotient. *)
Lemma second_loop tf max_freq :
  Forall (fun item : string * Z => 0 < item.2 <= max_freq) tf ->
  exists tf', scale_all tf max_freq = Ok tf' /\
    forall w, Dict.get tf' w = None /\ Dict.get tf w = None \/
      exists c s, Dict.get tf w = Some c /\ score c max_freq = Ok s /\
                  Dict.get tf' w = Some s /\ Float.le s Float.one = true.
Proof.
  induction 1 as [|[w0 c0] tf Hc _ (tf' & E & IH)]; simpl in *.
  - exists []. split; [reflexivity|]. intros w. by left.
  - destruct (FloatFacts.true_div_le_one c0 max_freq Hc) as (q & Eq & Hq1 & Hq2 & Hq3 & Hq4).
    destruct (FloatFacts.py_round_le_one q Hq1 Hq2 Hq3 Hq4) as (s & Es & Hs).
    rewrite Eq. simpl. rewrite Es. simpl. rewrite E. simpl.
    eexists. split; [reflexivity|].
    intros w. simpl. destruct (String.eqb w w0).
    + right. exists c0, s. unfold score. rewrite Eq. simpl. by rewrite Es.
    + apply IH.
Qed.

End TfFacts.

(** C7: when the token [w] occurs [k] times, [k] positive, and every
    other token fewer times, [calculate_tf] returns a mapping in which
    [w] has the score [1.0] and every other token [w'] of the stream has
    the score [round(count / k, 3)], a float that is at most [1.0]. *)
Theorem calculate_tf_scores (word_list : list string) (w : string) (k : Z) :
  occurrences w word_list = k ->
  (0 < k)%Z ->
  (forall w', w' <> w -> (occurrences w' word_list < k)%Z) ->
  exists tf,
    calculate_tf word_list = Ok tf /\
    Dict.get tf w = Some Float.one /\
    forall w', w' <> w -> w' ∈ word_list ->
      exists s,
        score (occurrences w' word_list) k = Ok s /\
        Dict.get tf w' = Some s /\
        Float.le s Float.one = true.
Proof.
  intros Hw Hk Hothers. unfold calculate_tf.
  pose proof (TfFacts.first_loop word_list) as Hc.
  destruct (fold_left count_word word_list ([], 0%Z)) as [tf mx]. simpl in Hc.
  destruct Hc as [Hget Hitems Hbound Hmax].
  assert (mx = k) as ->.
  { pose proof (Hbound w) as Hbw.
    destruct Hmax as [->|[w0 Hw0]]; [lia|].
    destruct (decide (w0 = w)) as [->|Hne]; [lia|].
    specialize (Hothers _ Hne). lia. }
  destruct (TfFacts.second_loop tf k) as (tf' & E & Hscores).
  { eapply Forall_impl; [exact Hitems|].
    intros [w' c]. simpl. specialize (Hbound w'). lia. }
  exists tf'. split; [exact E|]. split.
  - destruct (Hscores w) as [[_ Hnone]|(c & s & Hc & Hs & Hs' & _)].
    + rewrite Hget, Hw in Hnone. by destruct (Z.eqb_spec k 0); [lia|].
    + rewrite Hget, Hw in Hc. destruct (Z.eqb_spec k 0); [lia|].
      injection Hc as <-. rewrite Hs'. f_equal.
      unfold score in Hs. rewrite FloatFacts.true_div_same in Hs by lia.
      simpl in Hs. rewrite FloatFacts.py_round_one in Hs. congruence.
  - intros w' Hne Hin. apply TfFacts.occurrences_pos in Hin.
    destruct (Hscores w') as [[_ Hnone]|(c & s & Hc & Hs & Hs' & Hle)].
    + rewrite Hget in Hnone.
      by destruct (Z.eqb_spec (occurrences w' word_list) 0); [lia|].
    + rewrite Hget in Hc.
      destruct (Z.eqb_spec (occurrences w' word_list) 0); [lia|].
      injection Hc as <-. by exists s.
Qed.

Lemma calculate_tf_scores_witness :
  exists tf,
    calculate_tf ["a"; "b"; "a"; "c"; "a"; "b"] = Ok tf /\
    Dict.get tf "a" = Some Float.one /\
    forall w', w' <> "a" -> w' ∈ ["a"; "b"; "a"; "c"; "a"; "b"] ->
      exists s,
        score (occurrences w' ["a"; "b"; "a"; "c"; "a"; "b"]) 3 = Ok s /\
        Dict.get tf w' = Some s /\
        Float.le s Float.one = true.
Proof.
  apply (calculate_tf_scores ["a"; "b"; "a"; "c"; "a"; "b"] "a" 3).
  - reflexivity.
  - lia.
  - intros w' Hne. cbn [occurrences].
    destruct (String.eqb_spec w' "a") as [|_]; [done|].
    destruct (String.eqb_spec w' "b") as [->|_]; [reflexivity|].
    destruct (String.eqb_spec w' "c") as [->|_]; reflexivity.
Defined.

(** * More of the scripts *)

(** ** [get_domain], computed without the pattern *)

Module DomainFacts.
Import Re DomainEnd.
#[local] Arguments Ascii.eqb : simpl never.

Lemma take_app u s : Str.take (String.length u) (u +:+ s) = u.
Proof.
  induction u as [|c u IH]; [by destruct s|].
  rewrite StrFacts.app_cons. simpl. by rewrite IH.
Qed.

Lemma consumed_app u s : consumed (u +:+ s) s = u.
Proof.
  unfold consumed. rewrite StrFacts.length_app.
  replace (String.length u + String.length s - String.length s)%nat
    with (String.length u) by lia.
  apply take_app.
Qed.

(** A literal: the input starts with it, or there is no match. *)
Lemma run_lit p s g k :
  run (lit p) s g k
  = if Str.startswith s p then k (Str.drop (String.length p) s) g else None.
Proof.
  unfold Str.startswith. revert s. induction p as [|c p IH]; intros s.
  - by destruct s.
  - destruct s as [|c' s]; [reflexivity|]. simpl.
    destruct (Ascii.eqb_spec c c') as [->|Hne].
    + destruct (ascii_dec c' c'); [apply IH|congruence].
    + by destruct (ascii_dec c c').
Qed.

(** The final [.+]: one character of the line is enough, whatever the
    fuel. *)
Lemma run_final_plus fuel s g :
  plus_loop (run Any) (fun _ g' => Some g') fuel s g
  = if head_ok s then Some g else None.
Proof.
  revert s. induction fuel as [|fuel IH]; intros [|c s]; simpl; try reflexivity.
  - by destruct (Ascii.eqb c Str.newline).
  - destruct (Ascii.eqb c Str.newline); [reflexivity|]. simpl.
    destruct (_ <? _)%nat; [|reflexivity].
    rewrite IH. by destruct (head_ok s).
Qed.

(** [\..+] at the end of the pattern. *)
Lemma run_dot_plus s g :
  run (Cat (Chr ".") (Plus Any)) s g (fun _ g' => Some g')
  = if tail_ok s then Some g else None.
Proof.
  destruct s as [|c s]; [reflexivity|]. simpl.
  destruct (Ascii.eqb "." c); [|reflexivity]. simpl.
  apply run_final_plus.
Qed.

(** One round of a greedy [.+] on a non-empty input. *)
Lemma plus_any_cons k fuel c s g :
  plus_loop (run Any) k (S fuel) (String c s) g
  = if Ascii.eqb c Str.newline then None
    else match plus_loop (run Any) k fuel s g with
         | Some m => Some m
         | None => k s g
         end.
Proof.
  simpl. destruct (Ascii.eqb c Str.newline); [reflexivity|].
  assert ((String.length s <? S (String.length s))%nat = true) as ->; [|reflexivity].
  apply Nat.ltb_lt. lia.
Qed.

(** The greedy group, started at [s0] and now at [s] with [pre] taken;
    [k] is the rest of the pattern, [\..+], after the group is closed. *)
Lemma run_group_loop k s0 s : forall pre g fuel,
  (forall s' g', k s' g' = if tail_ok s' then Some (<[2%nat := consumed s0 s']> g') else None) ->
  s0 = pre +:+ s ->
  (String.length s <= fuel)%nat ->
  plus_loop (run Any) k fuel s g
  = (fun a => <[2%nat := pre +:+ a]> g) <$> domain_end s.
Proof.
  induction s as [|c s IH]; intros pre g fuel Hk Hs0 Hfuel.
  - by destruct fuel.
  - destruct fuel as [|fuel]; [simpl in Hfuel; lia|].
    rewrite plus_any_cons. cbn [domain_end].
    destruct (Ascii.eqb c Str.newline); [reflexivity|].
    assert (s0 = (pre +:+ String c "") +:+ s) as Hs0'.
    { by rewrite StrFacts.app_assoc. }
    rewrite (IH (pre +:+ String c "") g fuel Hk Hs0') by (simpl in Hfuel; lia).
    destruct (domain_end s) as [a|]; simpl.
    + by rewrite StrFacts.app_assoc.
    + rewrite Hk. rewrite Hs0' at 1. rewrite consumed_app.
      by destruct (tail_ok s).
Qed.

(** [(.+)\..+] at the end of the pattern. *)
Lemma run_group s g :
  run (Cat (Group 2 (Plus Any)) (Cat (Chr ".") (Plus Any))) s g (fun _ g' => Some g')
  = (fun a => <[2%nat := a]> g) <$> domain_end s.
Proof.
  change (run (Cat (Group 2 (Plus Any)) (Cat (Chr ".") (Plus Any))) s g (fun _ g' => Some g'))
    with (plus_loop (run Any)
            (fun s' g' => run (Cat (Chr ".") (Plus Any)) s' (<[2%nat := consumed s s']> g')
                            (fun _ g'' => Some g''))
            (String.length s) s g).
  apply (run_group_loop _ s s ""); [|reflexivity|lia].
  intros s' g'. apply run_dot_plus.
Qed.

(** An optional group around a literal: taken when the literal is
    there and the rest of the pattern then matches. *)
Lemma run_opt_group_lit n p s g k :
  run (Opt (Group n (lit p))) s g k
  = match (if Str.startswith s p
           then k (Str.drop (String.length p) s)
                  (<[n := consumed s (Str.drop (String.length p) s)]> g)
           else None) with
    | Some m => Some m
    | None => k s g
    end.
Proof. cbn [run]. by rewrite run_lit. Qed.

(** [(www\.)?(.+)\..+] *)
Lemma run_www_group s g :
  option_map (fun m => group m 2)
    (run (Cat (Opt (Group 1 (lit "www.")))
         (Cat (Group 2 (Plus Any)) (Cat (Chr ".") (Plus Any)))) s g (fun _ g' => Some g'))
  = Some <$> domain_of_rest s.
Proof.
  unfold domain_of_rest.
  change (run (Cat ?r1 ?r2) s g ?k) with (run r1 s g (fun s' g' => run r2 s' g' k)).
  rewrite run_opt_group_lit. cbn beta.
  destruct (Str.startswith s "www.").
  - rewrite !run_group. destruct (domain_end (Str.drop _ s)) as [a|]; simpl.
    + unfold group. by rewrite lookup_insert_eq.
    + destruct (domain_end s); simpl; [|done].
      unfold group. by rewrite lookup_insert_eq.
  - rewrite run_group. destruct (domain_end s); simpl; [|done].
    unfold group. by rewrite lookup_insert_eq.
Qed.

Lemma get_domain_http rest :
  get_domain ("http://" +:+ rest) = to_result (domain_of_rest rest).
Proof.
  unfold get_domain, re_match.
  pose proof (run_www_group rest ∅) as H.
  change (run domain_pattern ("http://" +:+ rest) ∅ (fun _ g => Some g))
    with (run (Cat (Opt (Group 1 (lit "www.")))
              (Cat (Group 2 (Plus Any)) (Cat (Chr ".") (Plus Any)))) rest ∅
              (fun _ g' => Some g')).
  destruct (run _ rest ∅ _) as [m|]; destruct (domain_of_rest rest) as [a|];
    simpl in H; try discriminate; [|reflexivity].
  injection H as H. simpl. by rewrite H.
Qed.

Lemma get_domain_https rest :
  get_domain ("https://" +:+ rest) = to_result (domain_of_rest rest).
Proof.
  unfold get_domain, re_match.
  pose proof (run_www_group rest ∅) as H.
  change (run domain_pattern ("https://" +:+ rest) ∅ (fun _ g => Some g))
    with (match run (Cat (Opt (Group 1 (lit "www.")))
                    (Cat (Group 2 (Plus Any)) (Cat (Chr ".") (Plus Any)))) rest ∅
                    (fun _ g' => Some g') with
          | Some m => Some m
          | None => None
          end).
  destruct (run _ rest ∅ _) as [m|]; destruct (domain_of_rest rest) as [a|];
    simpl in H; try discriminate; [|reflexivity].
  injection H as H. simpl. by rewrite H.
Qed.

End DomainFacts.

(** ** What [domain_end] finds *)

Module DomainEndFacts.
Import DomainEnd.
#[local] Arguments Ascii.eqb : simpl never.

Lemma domain_end_cons c s :
  domain_end (String c s)
  = if Ascii.eqb c Str.newline then None
    else match domain_end s with
         | Some a => Some (String c a)
         | None => if tail_ok s then Some (String c "") else None
         end.
Proof. reflexivity. Qed.

Lemma tail_ok_inv s :
  tail_ok s = true -> exists c rest, s = String "." (String c rest) /\ c <> Str.newline.
Proof.
  destruct s as [|d [|c rest]]; simpl; try discriminate.
  - by rewrite andb_false_r.
  - destruct (Ascii.eqb_spec "." d) as [<-|]; [|discriminate]. simpl.
    destruct (Ascii.eqb_spec c Str.newline); [discriminate|]. eauto.
Qed.

(** The text found is followed by a dot and one more character of the
    line; it is not empty and stays on the first line. *)
Lemma domain_end_shape s a :
  domain_end s = Some a ->
  exists c rest,
    s = a +:+ String "." (String c rest) /\ a <> "" /\
    Str.has_char Str.newline a = false /\ c <> Str.newline.
Proof.
  revert a. induction s as [|c0 s IH]; intros a; [discriminate|].
  rewrite domain_end_cons.
  destruct (Ascii.eqb_spec c0 Str.newline) as [|Hc0]; [discriminate|].
  assert (Ascii.eqb Str.newline c0 = false) as Hc0'.
  { destruct (Ascii.eqb_spec Str.newline c0); congruence. }
  destruct (domain_end s) as [a'|].
  - intros [= <-]. destruct (IH a' eq_refl) as (c & rest & -> & _ & Hnl & Hc).
    exists c, rest. repeat split; [done| |done].
    simpl. by rewrite Hc0'.
  - destruct (tail_ok s) eqn:E; [|discriminate]. intros [= <-].
    apply tail_ok_inv in E as (c & rest & -> & Hc).
    exists c, rest. repeat split; [done| |done].
    simpl. by rewrite Hc0'.
Qed.

Lemma tail_ok_no_dot s : Str.has_char "." s = false -> tail_ok s = false.
Proof.
  destruct s as [|c s]; [done|]. simpl. by destruct (Ascii.eqb "." c).
Qed.

Lemma domain_end_no_dot s : Str.has_char "." s = false -> domain_end s = None.
Proof.
  induction s as [|c s IH]; [done|]. rewrite domain_end_cons. simpl.
  destruct (Ascii.eqb "." c); [discriminate|]. intros H.
  rewrite (IH H), (tail_ok_no_dot _ H). by destruct (Ascii.eqb c Str.newline).
Qed.

(** After a text of one line come a dot and a tail without dots: the
    text is what is found. *)
Lemma domain_end_host h t :
  h <> "" -> Str.has_char Str.newline h = false ->
  Str.has_char "." t = false -> head_ok t = true ->
  domain_end (h +:+ String "." t) = Some h.
Proof.
  intros Hne Hnl Ht Hhead. induction h as [|c h IH]; [done|].
  rewrite StrFacts.app_cons, domain_end_cons.
  simpl in Hnl. rewrite (Ascii.eqb_sym c Str.newline).
  destruct (Ascii.eqb Str.newline c); [discriminate|].
  destruct h as [|c' h].
  - rewrite StrFacts.app_nil_l, domain_end_cons.
    rewrite (domain_end_no_dot _ Ht), (tail_ok_no_dot _ Ht).
    destruct (Ascii.eqb "." Str.newline); simpl; rewrite Hhead;
      by destruct (Ascii.eqb_spec "." ".").
  - by rewrite IH.
Qed.

Lemma tail_ok_app_slash x p1 p2 :
  tail_ok (x +:+ String "/" p1) = tail_ok (x +:+ String "/" p2).
Proof.
  destruct x as [|c1 [|c2 x]]; rewrite ?StrFacts.app_cons, ?StrFacts.app_nil_l;
    reflexivity.
Qed.

(** What follows a slash does not matter as long as it has no dot. *)
Lemma domain_end_path x p1 p2 :
  Str.has_char "." p1 = false -> Str.has_char "." p2 = false ->
  domain_end (x +:+ String "/" p1) = domain_end (x +:+ String "/" p2).
Proof.
  intros H1 H2. induction x as [|c x IH].
  - rewrite !StrFacts.app_nil_l, !domain_end_no_dot; done.
  - rewrite !StrFacts.app_cons, !domain_end_cons, IH.
    by rewrite (tail_ok_app_slash x p1 p2).
Qed.

(** A prefix without the character [c] is found in [h] alone. *)
Lemma startswith_app_char h c s q :
  Str.has_char c q = false ->
  Str.startswith (h +:+ String c s) q = Str.startswith h q.
Proof.
  unfold Str.startswith. revert h. induction q as [|cq q IH]; intros h Hq.
  - by destruct h.
  - simpl in Hq. destruct (Ascii.eqb_spec c cq) as [|Hne]; [discriminate|].
    destruct h as [|ch h].
    + rewrite StrFacts.app_nil_l. simpl. by destruct (ascii_dec cq c); [congruence|].
    + rewrite StrFacts.app_cons. simpl. destruct (ascii_dec cq ch); [by apply IH|done].
Qed.

Lemma drop_app h s q :
  Str.startswith h q = true ->
  Str.drop (String.length q) (h +:+ s) = Str.drop (String.length q) h +:+ s.
Proof.
  intros [t ->]%StrFacts.startswith_inv. rewrite StrFacts.app_assoc.
  induction q as [|cq q IH]; [by destruct t, s|].
  rewrite !StrFacts.app_cons. simpl. exact IH.
Qed.

Lemma domain_of_rest_path host p1 p2 :
  Str.has_char "." p1 = false -> Str.has_char "." p2 = false ->
  domain_of_rest (host +:+ String "/" p1) = domain_of_rest (host +:+ String "/" p2).
Proof.
  intros H1 H2. unfold domain_of_rest.
  rewrite !(startswith_app_char host "/" _ "www.") by reflexivity.
  rewrite (domain_end_path host p1 p2 H1 H2).
  destruct (Str.startswith host "www.") eqn:E; [|reflexivity].
  change 4%nat with (String.length "www.").
  by rewrite !(drop_app host _ "www." E), (domain_end_path _ p1 p2 H1 H2).
Qed.

Lemma startswith_cons c' s c p :
  Str.startswith (String c' s) (String c p)
  = if Ascii.eqb c c' then Str.startswith s p else false.
Proof.
  unfold Str.startswith. simpl.
  destruct (ascii_dec c c') as [->|Hne].
  - by rewrite Ascii.eqb_refl.
  - by destruct (Ascii.eqb_spec c c').
Qed.

Lemma startswith_nil c p : Str.startswith "" (String c p) = false.
Proof. reflexivity. Qed.

Lemma startswith_empty s : Str.startswith s "" = true.
Proof. by destruct s. Qed.

(** A host that does not start with [www.], a dot, a dot-free tail. *)
Lemma domain_of_rest_host h t :
  h <> "" -> Str.has_char Str.newline h = false -> Str.startswith h "www." = false ->
  Str.has_char "." t = false -> head_ok t = true ->
  domain_of_rest (h +:+ String "." t) = Some h.
Proof.
  intros Hne Hnl Hwww Ht Hhead. unfold domain_of_rest.
  rewrite (domain_end_host h t Hne Hnl Ht Hhead).
  destruct (Str.startswith (h +:+ String "." t) "www.") eqn:E; [|reflexivity].
  assert (domain_end (Str.drop 4 (h +:+ String "." t)) = None) as ->; [|reflexivity].
  destruct h as [|c1 [|c2 [|c3 [|c4 h]]]];
    rewrite ?StrFacts.app_cons, ?StrFacts.app_nil_l in *;
    rewrite ?startswith_cons, ?startswith_nil, ?startswith_empty in E, Hwww.
  - done.
  - destruct (Ascii.eqb "w" c1); [|done]. by vm_compute in E.
  - destruct (Ascii.eqb "w" c1); [|done]. destruct (Ascii.eqb "w" c2); [|done].
    by vm_compute in E.
  - by apply domain_end_no_dot.
  - congruence.
Qed.

(** [www.], a non-empty host, a dot, a dot-free tail. *)
Lemma domain_of_rest_www_host h t :
  h <> "" -> Str.has_char Str.newline h = false ->
  Str.has_char "." t = false -> head_ok t = true ->
  domain_of_rest ("www." +:+ h +:+ String "." t) = Some h.
Proof.
  intros Hne Hnl Ht Hhead. unfold domain_of_rest.
  rewrite (StrFacts.startswith_app "www.").
  change (Str.drop 4 ("www." +:+ ?s)) with s.
  by rewrite (domain_end_host h t Hne Hnl Ht Hhead).
Qed.

End DomainEndFacts.

(** ** [get_domain] and the cache-file name: what a caller sees *)

Lemma get_domain_scheme scheme rest :
  scheme = "http://" \/ scheme = "https://" ->
  get_domain (scheme +:+ rest) = DomainEnd.to_result (DomainEnd.domain_of_rest rest).
Proof.
  intros [-> | ->]; [apply DomainFacts.get_domain_http|apply DomainFacts.get_domain_https].
Qed.

Lemma head_ok_cons c t : c <> Str.newline -> DomainEnd.head_ok (String c t) = true.
Proof. intros H. simpl. by destruct (Ascii.eqb_spec c Str.newline). Qed.

(** X1: [http] or [https] makes no difference to [get_domain]: the two
    URLs with the same text after the scheme get the same domain, or both
    fail. *)
Theorem get_domain_scheme_independent (rest : string) :
  get_domain ("https://" +:+ rest) = get_domain ("http://" +:+ rest).
Proof. by rewrite DomainFacts.get_domain_http, DomainFacts.get_domain_https. Qed.

Lemma domain_of_rest_shape r a :
  DomainEnd.domain_of_rest r = Some a ->
  exists w c rest,
    r = w +:+ a +:+ String "." (String c rest) /\ (w = "" \/ w = "www.") /\
    a <> "" /\ Str.has_char Str.newline a = false /\ c <> Str.newline.
Proof.
  unfold DomainEnd.domain_of_rest.
  destruct (Str.startswith r "www.") eqn:Ew.
  - apply StrFacts.startswith_inv in Ew as [r' Er].
    replace (Str.drop 4 r) with r' by (by subst r).
    destruct (DomainEnd.domain_end r') as [a'|] eqn:Ea.
    + intros [= <-].
      apply DomainEndFacts.domain_end_shape in Ea as (c & rest & -> & ? & ? & ?).
      exists "www.", c, rest. repeat split; auto.
    + intros (c & rest & Er' & ? & ? & ?)%DomainEndFacts.domain_end_shape.
      exists "", c, rest. repeat split; auto.
  - intros (c & rest & Er' & ? & ? & ?)%DomainEndFacts.domain_end_shape.
    exists "", c, rest. repeat split; auto.
Qed.

(** X2: when [get_domain] returns, it returns a string (never [None]),
    and that string is a non-empty piece of the URL, on one line, which
    stands right after the scheme, or after the scheme and [www.], and is
    followed by a dot and at least one more character of the line. *)
Theorem get_domain_result_shape (url : string) (d : option string) :
  get_domain url = Ok d ->
  exists scheme w a c rest,
    d = Some a /\
    url = scheme +:+ w +:+ a +:+ String "." (String c rest) /\
    (scheme = "http://" \/ scheme = "https://") /\
    (w = "" \/ w = "www.") /\
    a <> "" /\ Str.has_char Str.newline a = false /\ c <> Str.newline.
Proof.
  intros H.
  assert (exists scheme r, url = scheme +:+ r /\
            (scheme = "http://" \/ scheme = "https://")) as (scheme & r & -> & Hs).
  { destruct (get_domain_needs_scheme _ _ H) as [[r ->]%StrFacts.startswith_inv
                                                |[r ->]%StrFacts.startswith_inv];
      eauto. }
  rewrite get_domain_scheme in H by done.
  destruct (DomainEnd.domain_of_rest r) as [a|] eqn:E; [|discriminate].
  injection H as <-.
  apply domain_of_rest_shape in E as (w & c & rest & -> & Hw & ? & ? & ?).
  exists scheme, w, a, c, rest. repeat split; auto.
Qed.

Lemma get_domain_result_shape_witness :
  exists scheme w a c rest,
    Some "example" = Some a /\
    "http://www.example.com/news" = scheme +:+ w +:+ a +:+ String "." (String c rest) /\
    (scheme = "http://" \/ scheme = "https://") /\
    (w = "" \/ w = "www.") /\
    a <> "" /\ Str.has_char Str.newline a = false /\ c <> Str.newline.
Proof.
  apply (get_domain_result_shape "http://www.example.com/news" (Some "example")).
  vm_compute. reflexivity.
Defined.

(** X3: two URLs with the same scheme and the same host, a slash and
    then paths without any dot get the same cache-file name (or both are
    rejected): for such pages the cache is shared. *)
Theorem cache_fname_ignores_dotless_path (scheme host p1 p2 : string) :
  scheme = "http://" \/ scheme = "https://" ->
  Str.has_char "." p1 = false ->
  Str.has_char "." p2 = false ->
  cache_fname (scheme +:+ host +:+ String "/" p1)
  = cache_fname (scheme +:+ host +:+ String "/" p2).
Proof.
  intros Hs H1 H2. unfold cache_fname.
  by rewrite !get_domain_scheme, (DomainEndFacts.domain_of_rest_path host p1 p2).
Qed.

Lemma cache_fname_ignores_dotless_path_witness :
  cache_fname ("http://" +:+ "example.com" +:+ String "/" "news/today")
  = cache_fname ("http://" +:+ "example.com" +:+ String "/" "sports").
Proof.
  apply cache_fname_ignores_dotless_path; [by left|reflexivity|reflexivity].
Defined.

(** X4: for a URL made of the scheme, a host part [h] on one line that
    does not start with [www.], a dot and a tail without further dots
    (the top-level domain, maybe a dot-free path), [get_domain] returns
    [h]: everything between the scheme and the last dot. *)
Theorem get_domain_up_to_last_dot (scheme h : string) (c : ascii) (t : string) :
  scheme = "http://" \/ scheme = "https://" ->
  h <> "" ->
  Str.has_char Str.newline h = false ->
  Str.startswith h "www." = false ->
  c <> Str.newline ->
  Str.has_char "." (String c t) = false ->
  get_domain (scheme +:+ h +:+ String "." (String c t)) = Ok (Some h).
Proof.
  intros Hs Hne Hnl Hwww Hc Ht.
  rewrite get_domain_scheme by done.
  by rewrite DomainEndFacts.domain_of_rest_host; [| | | | |apply head_ok_cons].
Qed.

Lemma get_domain_up_to_last_dot_witness :
  get_domain ("https://" +:+ "docs.python" +:+ String "." (String "o" "rg/3/library"))
  = Ok (Some "docs.python").
Proof.
  apply get_domain_up_to_last_dot;
    [by right|discriminate|reflexivity|reflexivity|discriminate|reflexivity].
Defined.

(** X5: with [www.] in front of a non-empty host part [h] on one line,
    a dot and a tail without further dots, [get_domain] drops the [www.]
    and returns [h]. *)
Theorem get_domain_drops_www (scheme h : string) (c : ascii) (t : string) :
  scheme = "http://" \/ scheme = "https://" ->
  h <> "" ->
  Str.has_char Str.newline h = false ->
  c <> Str.newline ->
  Str.has_char "." (String c t) = false ->
  get_domain (scheme +:+ "www." +:+ h +:+ String "." (String c t)) = Ok (Some h).
Proof.
  intros Hs Hne Hnl Hc Ht.
  rewrite get_domain_scheme by done.
  by rewrite DomainEndFacts.domain_of_rest_www_host; [| | | |apply head_ok_cons].
Qed.

Lemma get_domain_drops_www_witness :
  get_domain ("http://" +:+ "www." +:+ "example" +:+ String "." (String "c" "om/news"))
  = Ok (Some "example").
Proof.
  apply get_domain_drops_www;
    [by left|discriminate|reflexivity|discriminate|reflexivity].
Defined.

(** ** The fetcher and the crawl: what happens to the world *)

Module CrawlFacts.

Lemma requested_app tr1 tr2 : requested (tr1 ++ tr2) = requested tr1 ++ requested tr2.
Proof. unfold requested. apply omap_app. Qed.

Section Crawl.

Variable requests_get : list event -> string -> response.
Variable soup_hrefs : string -> list (option string).
Variable json_dumps : list string -> string.
Variable json_loads : string -> result (list string).

(** One fetch: it returns, appends its events to the trace, requests
    the resolved URL if there is a target, and leaves the files alone. *)
Lemma retrieve_page_effect url base w :
  exists page tr,
    retrieve_page requests_get url base w
    = (Ok page, mkWorld (trace w ++ tr) (files w)) /\
    requested tr = from_option (fun u => [resolve u base]) [] url.
Proof.
  destruct url as [u|]; simpl.
  - unfold mbind, io_bind, print, sleep, emit, http_get, mret, io_ret. simpl.
    destruct (requests_get _ _) as [content|msg]; simpl.
    + exists content, [EvPrint ("[+] Retrieving " +:+ resolve u base);
                       EvGet (resolve u base); EvSleep 200].
      by rewrite <- !app_assoc.
    + exists "", [EvPrint ("[+] Retrieving " +:+ resolve u base);
                  EvGet (resolve u base);
                  EvPrint "[-] Error retrieving page content";
                  EvPrint ("[-] " +:+ msg)].
      by rewrite <- !app_assoc.
  - exists "", []. destruct w. by rewrite app_nil_r.
Qed.

(** The fetches of the links, one after the other. *)
Lemma for_each_effect base links : forall w,
  exists pages tr,
    for_each (fun link => retrieve_page requests_get link base) links w
    = (Ok pages, mkWorld (trace w ++ tr) (files w)) /\
    length pages = length links /\
    requested tr = (fun u => resolve u base) <$> present links.
Proof.
  induction links as [|link links IH]; intros w.
  - exists [], []. destruct w. by rewrite app_nil_r.
  - destruct (retrieve_page_effect link base w) as (page & tr1 & E1 & R1).
    destruct (IH (mkWorld (trace w ++ tr1) (files w))) as (pages & tr2 & E2 & Hlen & R2).
    exists (page :: pages), (tr1 ++ tr2).
    cbn [for_each]. unfold mbind, io_bind at 1. rewrite E1.
    unfold io_bind at 1. rewrite E2. simpl.
    rewrite app_assoc. split; [done|]. split; [by rewrite Hlen|].
    rewrite requested_app, R1, R2. by destruct link.
Qed.

(** A crawl that finds no cache file. *)
Lemma follow_links_miss url fname w :
  cache_fname url = Ok fname ->
  files w !! fname = None ->
  exists content tr0 pages tr1,
    retrieve_page requests_get (Some url) url w
    = (Ok content, mkWorld (trace w ++ tr0) (files w)) /\
    length pages = length (soup_hrefs content) /\
    requested (tr0 ++ tr1)
    = resolve url url :: ((fun u => resolve u url) <$> present (soup_hrefs content)) /\
    follow_links requests_get soup_hrefs json_dumps json_loads url w
    = (Ok pages,
       mkWorld (trace w ++ tr0 ++ tr1
                ++ [EvPrint ("[*] Saving cache file " +:+ fname);
                    EvWrite fname (json_dumps pages)])
               (<[fname := json_dumps pages]> (files w))).
Proof.
  intros Hf Hnone.
  destruct (retrieve_page_effect (Some url) url w) as (content & tr0 & E0 & R0).
  destruct (for_each_effect url (soup_hrefs content) (mkWorld (trace w ++ tr0) (files w)))
    as (pages & tr1 & E1 & Hlen & R1).
  exists content, tr0, pages, tr1. split; [exact E0|]. split; [exact Hlen|].
  split; [by rewrite requested_app, R0, R1|].
  unfold follow_links. rewrite Hf.
  unfold mbind at 1, io_bind at 1, lift at 1. cbn beta iota.
  unfold mbind at 1, io_bind at 1, isfile at 1. cbn beta iota. rewrite Hnone.
  rewrite bool_decide_false by (intros [? ?]; discriminate).
  unfold mbind at 1, io_bind at 1. rewrite E0.
  unfold get_links. unfold mbind at 1, io_bind at 1. rewrite E1.
  unfold mbind, io_bind, print, emit, write_file, mret, io_ret. simpl.
  by rewrite <- !app_assoc.
Qed.

(** A crawl that finds the cache file. *)
Lemma follow_links_hit url fname data w :
  cache_fname url = Ok fname ->
  files w !! fname = Some data ->
  follow_links requests_get soup_hrefs json_dumps json_loads url w
  = (json_loads data,
     mkWorld (trace w ++ [EvPrint ("[*] Loading from cache file " +:+ fname);
                          EvRead fname]) (files w)).
Proof.
  intros Hf Hsome. unfold follow_links. rewrite Hf.
  unfold mbind at 1, io_bind at 1, lift at 1. cbn beta iota.
  unfold mbind at 1, io_bind at 1, isfile at 1. cbn beta iota. rewrite Hsome.
  rewrite bool_decide_true by eauto.
  unfold mbind, io_bind, print, emit, read_file, lift, mret, io_ret. simpl.
  rewrite Hsome. simpl. rewrite <- !app_assoc. simpl.
  by destruct (json_loads data).
Qed.

End Crawl.
End CrawlFacts.

Lemma cache_fname_needs_http url fname :
  cache_fname url = Ok fname -> Str.startswith url "http" = true.
Proof.
  unfold cache_fname. destruct (get_domain url) as [d|] eqn:E; [|discriminate].
  intros _. apply get_domain_needs_scheme in E as [E | E];
    eapply StrFacts.startswith_trans; eauto.
Qed.

(** X6: a fetch never raises and never touches a file, whatever the
    network does: it returns a page, only adds events to the trace, and
    the only URL it can have requested is the resolved link target (none
    at all for an absent target). *)
Theorem retrieve_page_absorbs_failures
    (requests_get : list event -> string -> response)
    (url : option string) (base : string) (w : world) :
  exists page tr,
    retrieve_page requests_get url base w
    = (Ok page, mkWorld (trace w ++ tr) (files w)) /\
    requested tr = from_option (fun u => [resolve u base]) [] url.
Proof. apply CrawlFacts.retrieve_page_effect. Qed.

(** X7: when the cache file of the seed URL exists, the crawl is its
    decoded content (or the decoder's exception): the file is read, and no
    request goes out. *)
Theorem follow_links_cache_hit
    (requests_get : list event -> string -> response)
    (soup_hrefs : string -> list (option string))
    (json_dumps : list string -> string)
    (json_loads : string -> result (list string))
    (url fname data : string) (w : world) :
  cache_fname url = Ok fname ->
  files w !! fname = Some data ->
  exists w',
    follow_links requests_get soup_hrefs json_dumps json_loads url w
    = (json_loads data, w') /\
    requested (trace w') = requested (trace w) /\
    files w' = files w.
Proof.
  intros Hf Hd. eexists. split; [by apply CrawlFacts.follow_links_hit|].
  simpl. rewrite CrawlFacts.requested_app. simpl. by rewrite app_nil_r.
Qed.

Lemma follow_links_cache_hit_witness :
  exists w',
    follow_links (fun _ _ => RespText "fresh") (fun _ => [Some "/a"])
      (fun _ => "") (fun _ => Ok ["old page"]) "http://example.com/index"
      (mkWorld [] {[ "example.json" := "[]" ]})
    = (Ok ["old page"], w') /\
    requested (trace w') = requested [] /\
    files w' = {[ "example.json" := "[]" ]}.
Proof.
  exact (follow_links_cache_hit (fun _ _ => RespText "fresh") (fun _ => [Some "/a"])
           (fun _ => "") (fun _ => Ok ["old page"]) "http://example.com/index"
           "example.json" "[]" (mkWorld [] {[ "example.json" := "[]" ]})
           ltac:(vm_compute; reflexivity) ltac:(vm_compute; reflexivity)).
Defined.



(** X9: when there is no cache file, the crawl requests the seed URL
    itself and then, in the order of the page, every link target that is
    there, resolved against the seed URL; an anchor without [href] costs
    no request, a failed fetch is not retried. *)
Theorem follow_links_requests
    (requests_get : list event -> string -> response)
    (soup_hrefs : string -> list (option string))
    (json_dumps : list string -> string)
    (json_loads : string -> result (list string))
    (url fname content : string) (w w0 : world) :
  cache_fname url = Ok fname ->
  files w !! fname = None ->
  retrieve_page requests_get (Some url) url w = (Ok content, w0) ->
  requested (trace (follow_links requests_get soup_hrefs json_dumps json_loads url w).2)
  = requested (trace w)
    ++ url :: ((fun u => resolve u url) <$> present (soup_hrefs content)).
Proof.
  intros Hf Hnone Hseed.
  destruct (CrawlFacts.follow_links_miss requests_get soup_hrefs json_dumps json_loads
              url fname w Hf Hnone) as (content' & tr0 & pages & tr1 & E0 & _ & R & E).
  rewrite E0 in Hseed. injection Hseed as -> _.
  rewrite E. cbn [snd trace].
  rewrite CrawlFacts.requested_app in R.
  rewrite !CrawlFacts.requested_app, (app_assoc (requested tr0)), R.
  change (requested [EvPrint _; EvWrite _ _]) with (@nil string).
  rewrite app_nil_r.
  unfold resolve at 1. by rewrite (cache_fname_needs_http _ _ Hf).
Qed.

Lemma follow_links_requests_witness :
  requested (trace (follow_links
      (fun _ url => if String.eqb url "http://example.com/a"
                    then RespError "404" else RespText "page")
      (fun _ => [Some "/a"; None; Some "http://other.org/b"])
      (fun pages => String.concat "|" pages) (fun _ => Ok [])
      "http://example.com" (mkWorld [] ∅)).2)
  = requested []
    ++ "http://example.com"
       :: ((fun u => resolve u "http://example.com")
             <$> present [Some "/a"; None; Some "http://other.org/b"]).
Proof.
  exact (follow_links_requests
           (fun _ url => if String.eqb url "http://example.com/a"
                         then RespError "404" else RespText "page")
           (fun _ => [Some "/a"; None; Some "http://other.org/b"])
           (fun pages => String.concat "|" pages) (fun _ => Ok [])
           "http://example.com" "example.json" "page" (mkWorld [] ∅)
           (mkWorld [EvPrint "[+] Retrieving http://example.com";
                     EvGet "http://example.com"; EvSleep 200] ∅)
           ltac:(vm_compute; reflexivity) ltac:(vm_compute; reflexivity)
           ltac:(vm_compute; reflexivity)).
Defined.

(** X10: cache round trip.  After a crawl that found no cache file, a
    crawl of any URL with the same cache-file name returns the very same
    pages without a single request, provided the decoder gives back what
    the encoder was given. *)
Theorem follow_links_twice
    (requests_get : list event -> string -> response)
    (soup_hrefs : string -> list (option string))
    (json_dumps : list string -> string)
    (json_loads : string -> result (list string))
    (url url2 fname : string) (pages : list string) (w w1 : world) :
  cache_fname url = Ok fname ->
  cache_fname url2 = Ok fname ->
  files w !! fname = None ->
  follow_links requests_get soup_hrefs json_dumps json_loads url w = (Ok pages, w1) ->
  json_loads (json_dumps pages) = Ok pages ->
  exists w2,
    follow_links requests_get soup_hrefs json_dumps json_loads url2 w1 = (Ok pages, w2) /\
    requested (trace w2) = requested (trace w1) /\
    files w2 = files w1.
Proof.
  intros Hf Hf2 Hnone Hrun Hjson.
  destruct (CrawlFacts.follow_links_miss requests_get soup_hrefs json_dumps json_loads
              url fname w Hf Hnone) as (content & tr0 & pages' & tr1 & _ & _ & _ & E).
  rewrite E in Hrun. injection Hrun as -> <-.
  eexists. split.
  - rewrite (CrawlFacts.follow_links_hit requests_get soup_hrefs json_dumps json_loads
               url2 fname (json_dumps pages)); [by rewrite Hjson|exact Hf2|].
    apply lookup_insert_eq.
  - cbn [trace files]. rewrite CrawlFacts.requested_app.
    change (requested [EvPrint _; EvRead _]) with (@nil string).
    by rewrite app_nil_r.
Qed.

Lemma follow_links_twice_witness :
  exists w2,
    follow_links (fun _ _ => RespText "page") (fun _ => [Some "/a"; None])
      (fun pages => String.concat "|" pages) (fun _ => Ok ["page"; ""])
      "http://example.com/sports"
      (follow_links (fun _ _ => RespText "page") (fun _ => [Some "/a"; None])
         (fun pages => String.concat "|" pages) (fun _ => Ok ["page"; ""])
         "http://example.com/news" (mkWorld [] ∅)).2
    = (Ok ["page"; ""], w2) /\
    requested (trace w2)
    = requested (trace (follow_links (fun _ _ => RespText "page")
         (fun _ => [Some "/a"; None])
         (fun pages => String.concat "|" pages) (fun _ => Ok ["page"; ""])
         "http://example.com/news" (mkWorld [] ∅)).2) /\
    files w2
    = files (follow_links (fun _ _ => RespText "page") (fun _ => [Some "/a"; None])
         (fun pages => String.concat "|" pages) (fun _ => Ok ["page"; ""])
         "http://example.com/news" (mkWorld [] ∅)).2.
Proof.
  exact (follow_links_twice (fun _ _ => RespText "page") (fun _ => [Some "/a"; None])
           (fun pages => String.concat "|" pages) (fun _ => Ok ["page"; ""])
           "http://example.com/news" "http://example.com/sports" "example.json"
           ["page"; ""] (mkWorld [] ∅) _
           ltac:(vm_compute; reflexivity) ltac:(vm_compute; reflexivity)
           ltac:(vm_compute; reflexivity) ltac:(vm_compute; reflexivity)
           ltac:(vm_compute; reflexivity)).
Defined.

(** X11: [mine_url] fails exactly as the crawl does and otherwise
    leaves the world as the crawl left it; it returns one word list per
    page, and every word in them is in lower case, free of punctuation
    and spaces, longer than one character and not ignored. *)
Theorem mine_url_word_lists
    (requests_get : list event -> string -> response)
    (soup_hrefs : string -> list (option string))
    (soup_texts : string -> string -> list string)
    (json_dumps : list string -> string)
    (json_loads : string -> result (list string))
    (url : string) (ignored_words : gset string) (w : world) :
  match follow_links requests_get soup_hrefs json_dumps json_loads url w with
  | (Ok pages, w') =>
      exists word_lists,
        mine_url requests_get soup_hrefs soup_texts json_dumps json_loads
          url ignored_words w = (Ok word_lists, w') /\
        length word_lists = length pages /\
        Forall (Forall (normal ignored_words)) word_lists
  | (Raise e, w') =>
      mine_url requests_get soup_hrefs soup_texts json_dumps json_loads
        url ignored_words w = (Raise e, w')
  end.
Proof.
  unfold mine_url, mbind, io_bind.
  destruct (follow_links _ _ _ _ url w) as [[pages|e] w']; [|reflexivity].
  eexists. split; [reflexivity|]. split.
  - by rewrite !length_fmap.
  - rewrite <- list_fmap_compose. apply Forall_fmap, Forall_forall.
    intros page _. apply WordFacts.create_word_list_normal.
Qed.

(** ** More on [create_word_list] *)

Module WordFacts2.
Import Str.

(** What the list holds before the last filter. *)
Lemma lower_list_elem elements x :
  x ∈ lower <$> (unpunct <$> (elements ≫= split " ")) ->
  has_char " " x = false /\ lower x = x /\ unpunct x = x.
Proof.
  intros (w1 & -> & Hw1)%list_elem_of_fmap.
  apply list_elem_of_fmap in Hw1 as (w0 & -> & Hw0).
  apply list_elem_of_bind in Hw0 as (e & Hw0 & _).
  pose proof (WordFacts.split_no_sep " " e) as Hsp.
  rewrite Forall_forall in Hsp. specialize (Hsp _ Hw0).
  repeat split.
  - rewrite WordFacts.has_char_lower. by apply WordFacts.has_char_keep.
  - apply WordFacts.lower_idem.
  - apply WordFacts.unpunct_lower, WordFacts.keep_idem.
Qed.

Lemma filter_ext_in {A} (P Q : A -> Prop) `{!forall x, Decision (P x)}
    `{!forall x, Decision (Q x)} (l : list A) :
  (forall x, x ∈ l -> P x <-> Q x) -> filter P l = filter Q l.
Proof.
  induction l as [|x l IH]; intros Hext; [reflexivity|].
  rewrite !filter_cons.
  rewrite IH by (intros y Hy; apply Hext; by right).
  assert (P x <-> Q x) as Hx by (apply Hext; by left).
  destruct (decide (P x)) as [HP|HP], (decide (Q x)) as [HQ|HQ];
    try reflexivity; tauto.
Qed.

Lemma split_cons_ne sep c s :
  c <> sep ->
  split sep (String c s)
  = match split sep s with
    | w :: ws => String c w :: ws
    | [] => [String c ""]
    end.
Proof. intros H. simpl. by destruct (Ascii.eqb_spec c sep). Qed.

Lemma split_not_nil sep s : split sep s <> [].
Proof.
  induction s as [|c s IH]; simpl; [done|].
  destruct (Ascii.eqb c sep); [done|]. by destruct (split sep s).
Qed.

(** Splitting a text with one more separator in the middle. *)
Lemma split_app sep a b :
  split sep (a +:+ String sep b) = split sep a ++ split sep b.
Proof.
  induction a as [|c a IH].
  - rewrite StrFacts.app_nil_l. simpl. by rewrite Ascii.eqb_refl.
  - rewrite StrFacts.app_cons. simpl.
    destruct (Ascii.eqb c sep); [by rewrite IH|].
    rewrite IH. pose proof (split_not_nil sep a).
    by destruct (split sep a).
Qed.

Lemma bind_one {A B} (f : A -> list B) (x : A) : [x] ≫= f = f x.
Proof. rewrite bind_cons. apply app_nil_r. Qed.

End WordFacts2.

(** X12: every word [create_word_list] returns is in lower case, free of
    punctuation and of spaces, longer than one character and outside the
    ignore set. *)
Theorem create_word_list_tokens (elements : list string) (ignored_words : gset string) :
  Forall (fun w => Str.has_char " " w = false /\ Str.lower w = w /\
                   Str.unpunct w = w /\ (1 < String.length w)%nat /\
                   w ∉ ignored_words)
         (create_word_list elements ignored_words).
Proof. apply WordFacts.create_word_list_normal. Qed.

(** X13: the lists [create_word_list] leaves unchanged are exactly the
    lists of such words. *)
Theorem create_word_list_fixed_points (tokens : list string) (ignored_words : gset string) :
  create_word_list tokens ignored_words = tokens
  <-> Forall (normal ignored_words) tokens.
Proof.
  split.
  - intros <-. apply WordFacts.create_word_list_normal.
  - apply WordFacts.create_word_list_fixes_normal.
Qed.

(** X14: ignoring words is a filter applied last: the word list with an
    ignore set is the word list without one, less the ignored words. *)
Theorem create_word_list_ignore_last (elements : list string) (ignored_words : gset string) :
  create_word_list elements ignored_words
  = filter (fun w => w ∉ ignored_words) (create_word_list elements ∅).
Proof.
  unfold create_word_list. rewrite list_filter_filter.
  apply list_filter_iff. intros w. split.
  - intros [Hlen Hnot]. split; [exact Hnot|]. split; [exact Hlen|].
    apply not_elem_of_empty.
  - intros [Hnot [Hlen _]]. by split.
Qed.

(** X15: an ignore word with a capital letter, a punctuation character
    or a space in it, or of one character or none, ignores nothing: the
    words are compared after they were split, stripped and lowered. *)
Theorem create_word_list_useless_ignore
    (elements : list string) (ignored_words : gset string) (w : string) :
  Str.lower w <> w \/ Str.unpunct w <> w \/ Str.has_char " " w = true \/
  (String.length w <= 1)%nat ->
  create_word_list elements ({[ w ]} ∪ ignored_words)
  = create_word_list elements ignored_words.
Proof.
  intros Hw. unfold create_word_list. apply WordFacts2.filter_ext_in.
  intros x (Hsp & Hlow & Hpun)%WordFacts2.lower_list_elem.
  split; intros [Hlen Hnot]; (split; [exact Hlen|]).
  - intros Hin. apply Hnot, elem_of_union. by right.
  - intros [->%elem_of_singleton|Hin]%elem_of_union; [|done].
    destruct Hw as [?|[?|[?|?]]]; [done|done|congruence|lia].
Qed.

Lemma create_word_list_useless_ignore_witness :
  create_word_list ["The cat and the hat"] ({[ "The" ]} ∪ ∅)
  = create_word_list ["The cat and the hat"] ∅.
Proof.
  apply create_word_list_useless_ignore. left. discriminate.
Defined.

(** X16: only the words count, not the way the text is cut into
    elements: the elements joined by single spaces into one element give
    the same word list. *)
Theorem create_word_list_joined (elements : list string) (ignored_words : gset string) :
  create_word_list [String.concat " " elements] ignored_words
  = create_word_list elements ignored_words.
Proof.
  assert (forall e es,
            [String.concat " " (e :: es)] ≫= Str.split " "
            = (e :: es) ≫= Str.split " ") as Hsplit.
  { intros e es. revert e. induction es as [|e' es IH]; intros e.
    - reflexivity.
    - change (String.concat " " (e :: e' :: es))
        with (e +:+ String " " (String.concat " " (e' :: es))).
      rewrite WordFacts2.bind_one, WordFacts2.split_app.
      specialize (IH e'). rewrite WordFacts2.bind_one in IH.
      by rewrite IH, (bind_cons _ e). }
  destruct elements as [|e es]; [by vm_compute|].
  unfold create_word_list. by rewrite Hsplit.
Qed.

(** ** More on [calculate_tf] *)

Module TfFacts2.
Local Open Scope Z_scope.

Lemma set_cons {V} k0 (v0 : V) d k v :
  Dict.set ((k0, v0) :: d) k v
  = if String.eqb k k0 then (k0, v) :: d else (k0, v0) :: Dict.set d k v.
Proof. reflexivity. Qed.

Lemma keys_set {V} (d : list (string * V)) k v :
  (Dict.set d k v).*1 = if decide (k ∈ d.*1) then d.*1 else d.*1 ++ [k].
Proof.
  induction d as [|[k0 v0] d IH].
  - destruct (decide (k ∈ ([] : list (string * V)).*1)) as [Hin|_]; [|reflexivity].
    by apply not_elem_of_nil in Hin.
  - rewrite set_cons, !fmap_cons. cbn [fst].
    destruct (String.eqb_spec k k0) as [->|Hk].
    + destruct (decide (k0 ∈ k0 :: d.*1)) as [_|Hnot]; [reflexivity|].
      exfalso. apply Hnot. by left.
    + rewrite fmap_cons, IH. cbn [fst].
      destruct (decide (k ∈ d.*1)) as [Hin|Hin],
               (decide (k ∈ k0 :: d.*1)) as [Hin'|Hin']; try reflexivity.
      * exfalso. apply Hin'. by right.
      * exfalso. apply elem_of_cons in Hin' as [?|?]; done.
Qed.

Lemma first_seen_snoc l x :
  first_seen (l ++ [x])
  = if decide (x ∈ first_seen l) then first_seen l else first_seen l ++ [x].
Proof. unfold first_seen. by rewrite fold_left_app. Qed.

Lemma first_seen_elem l w : w ∈ first_seen l <-> w ∈ l.
Proof.
  induction l as [|x l IH] using rev_ind.
  - reflexivity.
  - rewrite first_seen_snoc, elem_of_app, list_elem_of_singleton.
    destruct (decide (x ∈ first_seen l)) as [Hin|Hin].
    + rewrite IH. split; [by left|]. intros [?| ->]; [done|]. by apply IH.
    + by rewrite elem_of_app, list_elem_of_singleton, IH.
Qed.

Lemma first_seen_NoDup l : NoDup (first_seen l).
Proof.
  induction l as [|x l IH] using rev_ind.
  - constructor.
  - rewrite first_seen_snoc. destruct (decide (x ∈ first_seen l)) as [Hin|Hin]; [done|].
    apply NoDup_app. split; [done|]. split; [|apply NoDup_singleton].
    intros y Hy ->%list_elem_of_singleton. done.
Qed.

(** The keys after the first loop. *)
Lemma first_loop_keys l :
  (fold_left count_word l ([], 0)).1.*1 = first_seen l.
Proof.
  induction l as [|x l IH] using rev_ind; [reflexivity|].
  rewrite fold_left_app, first_seen_snoc. simpl.
  destruct (fold_left count_word l ([], 0)) as [tf mx]. simpl in *.
  by rewrite keys_set, IH.
Qed.

(** The second loop keeps the keys and their order. *)
Lemma second_loop_keys tf max_freq tf' :
  scale_all tf max_freq = Ok tf' -> tf'.*1 = tf.*1.
Proof.
  revert tf'. induction tf as [|[w c] tf IH]; intros tf'; simpl.
  - by intros [= <-].
  - destruct (Float.true_div c max_freq) as [q|]; simpl; [|discriminate].
    destruct (Float.py_round q 3) as [s|]; simpl; [|discriminate].
    destruct (scale_all tf max_freq) as [rest|] eqn:E; simpl; [|discriminate].
    intros [= <-]. rewrite !fmap_cons. cbn [fst]. f_equal. by apply IH.
Qed.

(** [calculate_tf] as a whole: it returns; a token that does not occur
    has no entry, a token that occurs holds its rounded quotient by the
    largest count [mx]. *)
Lemma calculate_tf_spec l :
  exists tf mx,
    calculate_tf l = Ok tf /\
    tf.*1 = first_seen l /\
    (forall w, occurrences w l <= mx) /\
    (mx = 0 \/ exists w, occurrences w l = mx) /\
    forall w,
      occurrences w l = 0 /\ Dict.get tf w = None \/
      0 < occurrences w l /\
      exists s, score (occurrences w l) mx = Ok s /\ Dict.get tf w = Some s /\
                Float.le s Float.one = true.
Proof.
  unfold calculate_tf.
  pose proof (TfFacts.first_loop l) as Hc. pose proof (first_loop_keys l) as Hk.
  destruct (fold_left count_word l ([], 0)) as [tf mx]. simpl in Hc, Hk.
  destruct Hc as [Hget Hitems Hbound Hmax].
  destruct (TfFacts.second_loop tf mx) as (tf' & E & Hscores).
  { eapply Forall_impl; [exact Hitems|].
    intros [w' c]. simpl. specialize (Hbound w'). lia. }
  exists tf', mx. split; [exact E|].
  split; [by rewrite (second_loop_keys _ _ _ E)|].
  split; [exact Hbound|]. split; [exact Hmax|].
  intros w. pose proof (TfFacts.occurrences_nonneg w l) as Hnn.
  destruct (Hscores w) as [[Hn' Hn]|(c & s & Hc & Hs & Hs' & Hle)];
    rewrite Hget in *; destruct (Z.eqb_spec (occurrences w l) 0) as [E0|E0];
    try discriminate.
  - by left.
  - injection Hc as <-. right. split; [lia|]. by exists s.
Qed.

(** The largest count is determined by the counts. *)
Lemma max_count_unique (f : string -> Z) k1 k2 :
  (forall w, 0 <= f w) ->
  (forall w, f w <= k1) -> (k1 = 0 \/ exists w, f w = k1) ->
  (forall w, f w <= k2) -> (k2 = 0 \/ exists w, f w = k2) ->
  k1 = k2.
Proof.
  intros Hnn Hb1 Hm1 Hb2 Hm2.
  pose proof (Hnn "") as Hn0. pose proof (Hb1 "") as Hb10. pose proof (Hb2 "") as Hb20.
  destruct Hm1 as [-> |[w1 Hw1]], Hm2 as [-> |[w2 Hw2]]; try lia.
  - specialize (Hb1 w2). specialize (Hnn w2). lia.
  - specialize (Hb2 w1). specialize (Hnn w1). lia.
  - specialize (Hb1 w2). specialize (Hb2 w1). lia.
Qed.

Lemma occurrences_perm w l1 l2 : l1 ≡ₚ l2 -> occurrences w l1 = occurrences w l2.
Proof.
  induction 1 as [|x l1 l2 _ IH|x y l|l1 l2 l3 _ IH1 _ IH2]; simpl; lia.
Qed.

End TfFacts2.

(** X17: [calculate_tf] never raises, on any token stream: no division
    by zero (the only division by [max_freq = 0] would be on the empty
    stream, which has no item to divide) and no overflow. *)
Theorem calculate_tf_total (word_list : list string) :
  exists tf, calculate_tf word_list = Ok tf.
Proof.
  destruct (TfFacts2.calculate_tf_spec word_list) as (tf & _ & E & _). eauto.
Qed.

(** X18: with ties.  When [k] is the largest count of the stream, every
    token of the stream has the score [round(count / k, 3)], at most
    [1.0], and every token that occurs [k] times has the score [1.0]. *)
Theorem calculate_tf_scores_ties (word_list : list string) (k : Z) (w : string) :
  (forall w', (occurrences w' word_list <= k)%Z) ->
  (exists w0, occurrences w0 word_list = k) ->
  w ∈ word_list ->
  exists tf s,
    calculate_tf word_list = Ok tf /\
    Dict.get tf w = Some s /\
    score (occurrences w word_list) k = Ok s /\
    Float.le s Float.one = true /\
    (occurrences w word_list = k -> s = Float.one).
Proof.
  intros Hbound Hmax Hin.
  destruct (TfFacts2.calculate_tf_spec word_list)
    as (tf & mx & E & _ & Hb & Hm & Hscores).
  assert (mx = k) as ->.
  { apply (TfFacts2.max_count_unique (fun w => occurrences w word_list)); auto.
    intros w'. apply TfFacts.occurrences_nonneg. }
  apply TfFacts.occurrences_pos in Hin.
  destruct (Hscores w) as [[H0 _]|(_ & s & Hs & Hget & Hle)]; [lia|].
  exists tf, s. repeat split; try done.
  intros Hk. rewrite Hk in Hs. unfold score in Hs.
  rewrite FloatFacts.true_div_same in Hs by lia. simpl in Hs.
  rewrite FloatFacts.py_round_one in Hs. congruence.
Qed.

Lemma calculate_tf_scores_ties_witness :
  exists tf s,
    calculate_tf ["a"; "b"; "b"; "a"; "c"] = Ok tf /\
    Dict.get tf "b" = Some s /\
    score (occurrences "b" ["a"; "b"; "b"; "a"; "c"]) 2 = Ok s /\
    Float.le s Float.one = true /\
    (occurrences "b" ["a"; "b"; "b"; "a"; "c"] = 2%Z -> s = Float.one).
Proof.
  apply (calculate_tf_scores_ties ["a"; "b"; "b"; "a"; "c"] 2 "b").
  - intros w'. cbn [occurrences].
    destruct (String.eqb_spec w' "a") as [->|_]; [by vm_compute|].
    destruct (String.eqb_spec w' "b") as [->|_]; [by vm_compute|].
    destruct (String.eqb_spec w' "c") as [->|_]; by vm_compute.
  - by exists "a".
  - apply list_elem_of_In. simpl. auto.
Defined.

(** X19: the mapping has one entry per distinct token of the stream, in
    the order in which the tokens first occur, and no other entry. *)
Theorem calculate_tf_keys (word_list : list string) (tf : list (string * Float.float)) :
  calculate_tf word_list = Ok tf ->
  tf.*1 = first_seen word_list /\
  NoDup tf.*1 /\
  forall w, w ∈ tf.*1 <-> w ∈ word_list.
Proof.
  intros E.
  destruct (TfFacts2.calculate_tf_spec word_list) as (tf' & _ & E' & Hk & _).
  rewrite E in E'. injection E' as <-.
  rewrite Hk. split; [done|]. split; [apply TfFacts2.first_seen_NoDup|].
  apply TfFacts2.first_seen_elem.
Qed.

Lemma calculate_tf_keys_witness :
  ((("b", Float.one) :: ("a", Float.mk false 4503599627370496 (-53)) :: nil).*1
   = first_seen ["b"; "a"; "b"]) /\
  NoDup (("b", Float.one) :: ("a", Float.mk false 4503599627370496 (-53)) :: nil).*1 /\
  forall w, w ∈ (("b", Float.one) :: ("a", Float.mk false 4503599627370496 (-53)) :: nil).*1
            <-> w ∈ ["b"; "a"; "b"].
Proof.
  apply calculate_tf_keys. vm_compute. reflexivity.
Defined.

(** X20: the scores do not depend on the order of the stream: two
    streams that are permutations of each other give every token the same
    score (only the order of the entries may differ). *)
Theorem calculate_tf_permutation
    (l1 l2 : list string) (tf1 tf2 : list (string * Float.float)) (w : string) :
  l1 ≡ₚ l2 ->
  calculate_tf l1 = Ok tf1 ->
  calculate_tf l2 = Ok tf2 ->
  Dict.get tf1 w = Dict.get tf2 w.
Proof.
  intros Hperm E1 E2.
  destruct (TfFacts2.calculate_tf_spec l1) as (tf1' & mx1 & E1' & _ & Hb1 & Hm1 & Hs1).
  destruct (TfFacts2.calculate_tf_spec l2) as (tf2' & mx2 & E2' & _ & Hb2 & Hm2 & Hs2).
  rewrite E1 in E1'. injection E1' as <-. rewrite E2 in E2'. injection E2' as <-.
  assert (forall w', occurrences w' l2 = occurrences w' l1) as Hocc.
  { intros w'. symmetry. by apply TfFacts2.occurrences_perm. }
  assert (mx1 = mx2) as ->.
  { apply (TfFacts2.max_count_unique (fun w => occurrences w l1)); auto.
    - intros w'. apply TfFacts.occurrences_nonneg.
    - intros w'. rewrite <- Hocc. apply Hb2.
    - destruct Hm2 as [?|[w0 H0]]; [by left|right]. exists w0. by rewrite <- Hocc. }
  specialize (Hs1 w). specialize (Hs2 w). rewrite Hocc in Hs2.
  destruct Hs1 as [[H1 ->] |(H1 & s1 & Hsc1 & -> & _)],
           Hs2 as [[H2 ->] |(H2 & s2 & Hsc2 & -> & _)]; try lia; [done|].
  congruence.
Qed.

Lemma calculate_tf_permutation_witness :
  Dict.get (("a", Float.one) :: ("b", Float.mk false 4503599627370496 (-53)) :: nil) "b"
  = Dict.get (("b", Float.mk false 4503599627370496 (-53)) :: ("a", Float.one) :: nil) "b".
Proof.
  apply (calculate_tf_permutation ["a"; "b"; "a"] ["b"; "a"; "a"]).
  - apply (Permutation_swap "b" "a" ["a"]).
  - vm_compute. reflexivity.
  - vm_compute. reflexivity.
Defined.

(** ** More on [parse_port] *)

Module PortFacts.
Import Str.
Local Open Scope Z_scope.

Lemma py_int_error s e : py_int s = Raise e -> e = ValueError.
Proof. unfold py_int. destruct (match lstrip s with "" => _ | _ => _ end); by intros [=]. Qed.

Lemma int_all_error args e : int_all args = Raise e -> e = ValueError.
Proof.
  induction args as [|a args IH]; simpl; [discriminate|].
  destruct (py_int a) as [n|e'] eqn:E; simpl.
  - destruct (int_all args) as [ns|e'']; simpl; [discriminate|].
    intros [= <-]. by apply IH.
  - intros [= <-]. by apply py_int_error in E.
Qed.

(** The list comprehension: element by element, all or nothing. *)
Lemma int_all_ok args l :
  int_all args = Ok l <-> Forall2 (fun a n => py_int a = Ok n) args l.
Proof.
  revert l. induction args as [|a args IH]; intros l; simpl.
  - split; [intros [= <-]; constructor|by inversion 1].
  - destruct (py_int a) as [n|e] eqn:E; simpl.
    + destruct (int_all args) as [ns|e'] eqn:E'; simpl.
      * split.
        -- intros [= <-]. constructor; [done|]. by apply IH.
        -- inversion 1 as [|? n' ? ns' Hn Hns]; subst.
           apply IH in Hns. congruence.
      * split; [discriminate|].
        inversion 1 as [|? n' ? ns' Hn Hns]; subst. by apply IH in Hns.
    + split; [discriminate|]. inversion 1; congruence.
Qed.

Lemma split_length sep s :
  has_char sep s = true -> (2 <= length (split sep s))%nat.
Proof.
  induction s as [|c s IH]; simpl; [discriminate|].
  rewrite (Ascii.eqb_sym c sep).
  destruct (Ascii.eqb sep c).
  - intros _. pose proof (WordFacts2.split_not_nil sep s).
    destruct (split sep s); simpl; [done|lia].
  - intros H. specialize (IH H). destruct (split sep s) as [|w ws]; simpl in *; lia.
Qed.

Lemma lstrip_no_char c s : has_char c s = false -> has_char c (lstrip s) = false.
Proof.
  induction s as [|c' s IH]; [done|]. cbn [lstrip].
  destruct (is_space c'); [|done].
  simpl. destruct (Ascii.eqb c c'); [discriminate|exact IH].
Qed.

Lemma digit_nonneg c d : digit c = Some d -> 0 <= d.
Proof.
  unfold digit. destruct (_ && _)%bool; [|discriminate]. intros [= <-]. lia.
Qed.

Lemma digits_nonneg s : forall acc b n, 0 <= acc -> digits s acc b = Some n -> 0 <= n.
Proof.
  induction s as [|c s IH]; intros acc b n Hacc; cbn [digits].
  - destruct b; [discriminate|]. by intros [= <-].
  - destruct (digit c) as [d|] eqn:Ed.
    + apply IH. apply digit_nonneg in Ed. lia.
    + destruct (Ascii.eqb c "_").
      * destruct b; [discriminate|]. by apply IH.
      * destruct b; [discriminate|].
        destruct (lstrip (String c s)); [|discriminate]. by intros [= <-].
Qed.

Lemma numeral_nonneg s n : numeral s = Some n -> 0 <= n.
Proof.
  destruct s as [|c s]; [discriminate|]. cbn [numeral].
  destruct (digit c) as [d|] eqn:Ed; [|discriminate].
  apply digits_nonneg. by apply digit_nonneg in Ed.
Qed.

Lemma has_char_minus s : has_char "-" (String "-" s) = true.
Proof. reflexivity. Qed.

(** Without a minus sign in the text there is none in the number. *)
Lemma py_int_nonneg s n : has_char "-" s = false -> py_int s = Ok n -> 0 <= n.
Proof.
  intros Hs%lstrip_no_char. unfold py_int.
  destruct (lstrip s) as [|c s'] eqn:E; [discriminate|].
  assert (c <> "-"%char) as Hc.
  { intros ->. by rewrite has_char_minus in Hs. }
  assert (forall p, match c with
                    | "-"%char => option_map Z.opp (numeral s')
                    | "+"%char => numeral s'
                    | _ => numeral (String c s')
                    end = Some p -> 0 <= p) as Hp.
  { intros p. destruct (ascii_dec c "+") as [->|Hplus].
    - apply numeral_nonneg.
    - destruct (ascii_dec c "-") as [->|_]; [done|].
      replace (match c with
               | "-"%char => option_map Z.opp (numeral s')
               | "+"%char => numeral s'
               | _ => numeral (String c s')
               end) with (numeral (String c s')); [apply numeral_nonneg|].
      clear -Hc Hplus.
      destruct c as [[|] [|] [|] [|] [|] [|] [|] [|]]; try reflexivity; congruence. }
  destruct (match c with "-"%char => _ | _ => _ end) as [p|]; [|discriminate].
  intros [= <-]. by apply Hp.
Qed.

End PortFacts.

Lemma parse_port_many args :
  (2 <= length args)%nat ->
  parse_port args = (ports ← int_all args; Ok (PortList ports)).
Proof.
  intros H. unfold parse_port.
  assert ((1 <? length args)%nat = true) as ->; [|reflexivity].
  apply Nat.ltb_lt. lia.
Qed.

Lemma parse_port_one a :
  parse_port [a]
  = if Str.has_char "-" a then
      (lo ← index (Str.split "-" a) 0;
       start ← Str.py_int lo;
       hi ← index (Str.split "-" a) 1;
       stop ← Str.py_int hi;
       Ok (PortRange start stop))
    else (n ← Str.py_int a; Ok (PortInt n)).
Proof. reflexivity. Qed.

(** X21: what comes back depends on the shape of the arguments alone:
    two or more arguments give a list, as long as the arguments; a single
    argument with a dash gives a range; a single argument without a dash
    gives a bare integer.  A range bound or a bare integer is never
    negative. *)
Theorem parse_port_shape (port_args : list string) (p : ports) :
  parse_port port_args = Ok p ->
  ((2 <= length port_args)%nat /\
     exists l, p = PortList l /\ length l = length port_args) \/
  (exists a start stop,
     port_args = [a] /\ Str.has_char "-" a = true /\ p = PortRange start stop /\
     (0 <= start)%Z /\ (0 <= stop)%Z) \/
  (exists a n,
     port_args = [a] /\ Str.has_char "-" a = false /\ p = PortInt n /\ (0 <= n)%Z).
Proof.
  destruct port_args as [|a [|b args]].
  - discriminate.
  - rewrite parse_port_one. destruct (Str.has_char "-" a) eqn:Hdash.
    + pose proof (WordFacts.split_no_sep "-" a) as Hsp.
      pose proof (PortFacts.split_length _ _ Hdash) as Hlen.
      destruct (Str.split "-" a) as [|lo [|hi fields]]; simpl in Hlen; try lia.
      apply Forall_cons in Hsp as [Hlo [Hhi _]%Forall_cons].
      cbn [index lookup list_lookup mbind result_bind].
      destruct (Str.py_int lo) as [start|] eqn:Elo; [|discriminate].
      destruct (Str.py_int hi) as [stop|] eqn:Ehi; [|discriminate].
      intros [= <-]. right. left. exists a, start, stop.
      repeat split; eauto using PortFacts.py_int_nonneg.
    + destruct (Str.py_int a) as [n|] eqn:E; [|discriminate].
      intros [= <-]. right. right. exists a, n.
      repeat split; eauto using PortFacts.py_int_nonneg.
  - rewrite parse_port_many by (simpl; lia).
    destruct (int_all (a :: b :: args)) as [l|] eqn:E; [|discriminate].
    intros [= <-]. left. split; [simpl; lia|]. exists l. split; [done|].
    apply PortFacts.int_all_ok in E. symmetry. by eapply Forall2_length.
Qed.

Lemma parse_port_shape_witness :
  ((2 <= length ["10-20"])%nat /\
     exists l, PortRange 10 20 = PortList l /\ length l = length ["10-20"]) \/
  (exists a start stop,
     ["10-20"] = [a] /\ Str.has_char "-" a = true /\
     PortRange 10 20 = PortRange start stop /\ (0 <= start)%Z /\ (0 <= stop)%Z) \/
  (exists a n,
     ["10-20"] = [a] /\ Str.has_char "-" a = false /\ PortRange 10 20 = PortInt n /\
     (0 <= n)%Z).
Proof. apply parse_port_shape. reflexivity. Defined.

(** X22: a single argument that begins with a minus sign is always
    rejected with [ValueError]: the text before the first dash is empty.
    (Among several arguments the same text is a negative number.) *)
Theorem parse_port_single_negative (s : string) :
  parse_port [String "-" s] = Raise ValueError.
Proof.
  rewrite parse_port_one. cbn [Str.has_char Str.split].
  change (Ascii.eqb "-" "-") with true. cbn iota.
  reflexivity.
Qed.

(** X23: a single argument [lo-hi] whose two parts hold no dash and are
    integers gives the range from the one to the other, whether or not
    the first is the smaller; whatever follows a second dash is not
    looked at. *)
Theorem parse_port_range (lo hi junk : string) (start stop : Z) :
  Str.has_char "-" lo = false ->
  Str.has_char "-" hi = false ->
  Str.py_int lo = Ok start ->
  Str.py_int hi = Ok stop ->
  parse_port [lo +:+ String "-" hi] = Ok (PortRange start stop) /\
  parse_port [lo +:+ String "-" (hi +:+ String "-" junk)] = Ok (PortRange start stop).
Proof.
  intros Hlo Hhi Elo Ehi.
  rewrite !parse_port_one, !StrFacts.has_char_app.
  change (Str.has_char "-" (String "-" ?s)) with true. rewrite !orb_true_r.
  rewrite !WordFacts2.split_app, !(WordFacts.split_without_sep _ _ Hlo),
    (WordFacts.split_without_sep _ _ Hhi).
  cbn [app index lookup list_lookup mbind result_bind].
  by rewrite Elo, Ehi.
Qed.

Lemma parse_port_range_witness :
  parse_port ["8080" +:+ String "-" "80"] = Ok (PortRange 8080 80) /\
  parse_port ["8080" +:+ String "-" ("80" +:+ String "-" "x")] = Ok (PortRange 8080 80).
Proof. apply parse_port_range; reflexivity. Defined.

(** X24: two or more arguments are converted one by one, in order, and
    all or nothing: the list comes back exactly when every argument is an
    integer, and one argument that is not makes the call raise
    [ValueError]. *)
Theorem parse_port_list (port_args : list string) :
  (2 <= length port_args)%nat ->
  (forall l, parse_port port_args = Ok (PortList l)
             <-> Forall2 (fun a n => Str.py_int a = Ok n) port_args l) /\
  (Exists (fun a => Str.py_int a = Raise ValueError) port_args ->
   parse_port port_args = Raise ValueError).
Proof.
  intros Hlen. rewrite parse_port_many by done. split.
  - intros l. rewrite <- PortFacts.int_all_ok.
    destruct (int_all port_args) as [l'|e]; simpl; split; congruence.
  - intros Hex. destruct (int_all port_args) as [l|e] eqn:E; simpl.
    + apply PortFacts.int_all_ok in E. exfalso.
      clear Hlen. induction E as [|a n args l Ha _ IH]; inversion Hex; subst;
        [congruence|auto].
    + by apply PortFacts.int_all_error in E as ->.
Qed.

Lemma parse_port_list_witness :
  (forall l, parse_port ["-5"; "80"; "4_43"] = Ok (PortList l)
             <-> Forall2 (fun a n => Str.py_int a = Ok n) ["-5"; "80"; "4_43"] l) /\
  (Exists (fun a => Str.py_int a = Raise ValueError) ["-5"; "80"; "4_43"] ->
   parse_port ["-5"; "80"; "4_43"] = Raise ValueError).
Proof. apply parse_port_list. simpl. lia. Defined.

(** X25: [parse_port] raises nothing but [ValueError], except on the
    empty argument list, where it raises [IndexError]. *)
Theorem parse_port_errors (port_args : list string) (e : exn) :
  parse_port port_args = Raise e ->
  e = ValueError \/ (e = IndexError /\ port_args = []).
Proof.
  destruct port_args as [|a [|b args]]; intros H.
  - injection H as <-. by right.
  - rewrite parse_port_one in H. left. destruct (Str.has_char "-" a) eqn:Hdash.
    + pose proof (PortFacts.split_length _ _ Hdash) as Hlen.
      destruct (Str.split "-" a) as [|lo [|hi fields]]; simpl in Hlen; try lia.
      cbn [index lookup list_lookup mbind result_bind] in H.
      destruct (Str.py_int lo) as [start|e1] eqn:Elo.
      * destruct (Str.py_int hi) as [stop|e2] eqn:Ehi; [discriminate|].
        injection H as <-. by apply PortFacts.py_int_error in Ehi.
      * injection H as <-. by apply PortFacts.py_int_error in Elo.
    + destruct (Str.py_int a) as [n|e1] eqn:E; [discriminate|].
      injection H as <-. by apply PortFacts.py_int_error in E.
  - rewrite parse_port_many in H by (simpl; lia). left.
    destruct (int_all (a :: b :: args)) as [l|e1] eqn:E; [discriminate|].
    injection H as <-. by apply PortFacts.int_all_error in E.
Qed.

Lemma parse_port_errors_witness :
  ValueError = ValueError \/ (ValueError = IndexError /\ ["1-"] = []).
Proof. apply (parse_port_errors ["1-"] ValueError). reflexivity. Defined.

(** ** The seed URL in [main] *)

Module MainFacts.
Import Re.

Lemma scheme_pattern_http rest : is_Some (re_match scheme_pattern ("http:/" +:+ rest)).
Proof.
  unfold re_match.
  change (run scheme_pattern ("http:/" +:+ rest) ∅ (fun _ g => Some g))
    with (match run (Plus (Chr "/")) rest ∅ (fun _ g => Some g) with
          | Some m => Some m
          | None => Some ∅
          end).
  by destruct (run _ rest ∅ _).
Qed.

Lemma scheme_pattern_https rest : is_Some (re_match scheme_pattern ("https:/" +:+ rest)).
Proof.
  unfold re_match.
  change (run scheme_pattern ("https:/" +:+ rest) ∅ (fun _ g => Some g))
    with (match
            match run (Plus (Chr "/")) rest ∅ (fun _ g => Some g) with
            | Some m => Some m
            | None => Some ∅
            end
          with
          | Some m => Some m
          | None => None
          end).
  by destruct (run _ rest ∅ _).
Qed.

Lemma scheme_pattern_sound url m :
  re_match scheme_pattern url = Some m ->
  Str.startswith url "http:/" = true \/ Str.startswith url "https:/" = true.
Proof.
  intros (u & s' & -> & H)%ReFacts.re_match_sound. unfold scheme_pattern in H.
  apply ReFacts.matches_cat_inv in H as (? & ? & -> & ->%ReFacts.matches_lit & H).
  apply ReFacts.matches_cat_inv in H as (o & ? & -> & Ho & H).
  apply ReFacts.matches_cat_inv in H as (? & v & -> & ->%ReFacts.matches_lit & _).
  apply ReFacts.matches_opt_inv in Ho as [-> | ->%ReFacts.matches_chr_inv].
  - left. rewrite !StrFacts.app_assoc. apply (StrFacts.startswith_app "http:/").
  - right. rewrite !StrFacts.app_assoc. apply (StrFacts.startswith_app "https:/").
Qed.

Lemma fix_url_spec url :
  fix_url url
  = if Str.startswith url "http:/" || Str.startswith url "https:/"
    then url else "http://" +:+ url.
Proof.
  unfold fix_url.
  destruct (Str.startswith url "http:/") eqn:E1.
  { apply StrFacts.startswith_inv in E1 as [r ->].
    by destruct (scheme_pattern_http r) as [m ->]. }
  destruct (Str.startswith url "https:/") eqn:E2.
  { apply StrFacts.startswith_inv in E2 as [r ->].
    by destruct (scheme_pattern_https r) as [m ->]. }
  destruct (re_match scheme_pattern url) as [m|] eqn:E; [|reflexivity].
  apply scheme_pattern_sound in E as [E|E]; congruence.
Qed.

End MainFacts.

(** X26: [main] leaves a seed URL alone exactly when it starts with
    [http:/] or [https:/] (one slash is enough for its pattern), and puts
    [http://] in front of every other one. *)
Theorem fix_url_cases (url : string) :
  fix_url url
  = if Str.startswith url "http:/" || Str.startswith url "https:/"
    then url else "http://" +:+ url.
Proof. apply MainFacts.fix_url_spec. Qed.

(** X27: a seed URL with a single slash after the scheme, [http:/...]
    or [https:/...], passes the check of [main] unchanged and then makes
    the crawl raise [AttributeError] before anything is printed or
    requested: the pattern of [get_domain] wants both slashes. *)
Theorem single_slash_url_crashes
    (requests_get : list event -> string -> response)
    (soup_hrefs : string -> list (option string))
    (json_dumps : list string -> string)
    (json_loads : string -> result (list string))
    (scheme rest : string) (w : world) :
  scheme = "http:/" \/ scheme = "https:/" ->
  Str.startswith rest "/" = false ->
  fix_url (scheme +:+ rest) = scheme +:+ rest /\
  follow_links requests_get soup_hrefs json_dumps json_loads
    (fix_url (scheme +:+ rest)) w
  = (Raise AttributeError, w).
Proof.
  intros Hs Hrest.
  assert (fix_url (scheme +:+ rest) = scheme +:+ rest) as ->.
  { rewrite MainFacts.fix_url_spec.
    destruct Hs as [-> | ->].
    - by rewrite (StrFacts.startswith_app "http:/").
    - rewrite (StrFacts.startswith_app "https:/"). by rewrite orb_true_r. }
  split; [reflexivity|].
  assert (get_domain (scheme +:+ rest) = Raise AttributeError) as E.
  { destruct (get_domain_cases (scheme +:+ rest)) as [E|[d E]]; [exact E|].
    exfalso. apply get_domain_ok_shape in E as (s & rest' & E & Hsch & _).
    destruct Hs as [-> | ->], Hsch as [-> | ->];
      rewrite ?StrFacts.app_cons, ?StrFacts.app_nil_l in E; simplify_eq.
    all: by rewrite DomainEndFacts.startswith_cons,
              DomainEndFacts.startswith_empty in Hrest. }
  unfold follow_links, cache_fname. rewrite E. reflexivity.
Qed.

Lemma single_slash_url_crashes_witness :
  fix_url ("http:/" +:+ "example.com") = "http:/" +:+ "example.com" /\
  follow_links (fun _ _ => RespText "") (fun _ => []) (fun _ => "") (fun _ => Ok [])
    (fix_url ("http:/" +:+ "example.com")) (mkWorld [] ∅)
  = (Raise AttributeError, mkWorld [] ∅).
Proof. apply single_slash_url_crashes; [by left|reflexivity]. Defined.

(** ** The ranking *)

Module RankFacts.

Lemma le_total x y : Float.le x y = true \/ Float.le y x = true.
Proof. unfold Float.le. rewrite !Z.leb_le. lia. Qed.

Lemma le_trans x y z : Float.le x y = true -> Float.le y z = true -> Float.le x z = true.
Proof. unfold Float.le. rewrite !Z.leb_le. lia. Qed.

Lemma insert_desc_perm item l : insert_desc item l ≡ₚ item :: l.
Proof.
  induction l as [|y l IH]; simpl; [done|].
  destruct (Float.le y.2 item.2); [done|].
  rewrite IH. apply Permutation_swap.
Qed.

Lemma sorted_desc_perm l : sorted_desc l ≡ₚ l.
Proof.
  induction l as [|x l IH]; simpl; [done|].
  by rewrite insert_desc_perm, IH.
Qed.

Lemma insert_desc_sorted item l :
  StronglySorted before l -> StronglySorted before (insert_desc item l).
Proof.
  induction 1 as [|y l Hl IH Hy]; simpl.
  - repeat constructor.
  - destruct (Float.le y.2 item.2) eqn:E.
    + constructor; [by constructor|].
      constructor; [exact E|].
      eapply Forall_impl; [exact Hy|]. intros z Hz. unfold before in *.
      by apply (le_trans _ y.2).
    + constructor; [exact IH|].
      rewrite (insert_desc_perm item l). constructor; [|exact Hy].
      unfold before. destruct (le_total item.2 y.2); congruence.
Qed.

Lemma sorted_desc_sorted l : StronglySorted before (sorted_desc l).
Proof.
  induction l as [|x l IH]; simpl; [constructor|]. by apply insert_desc_sorted.
Qed.

Lemma insert_desc_tied x item l :
  StronglySorted before l ->
  tied x (insert_desc item l) = tied x (item :: l).
Proof.
  unfold tied. induction 1 as [|y l Hl IH Hy]; simpl; [done|].
  destruct (Float.le y.2 item.2) eqn:E; [done|].
  rewrite (filter_cons _ y), IH, !filter_cons.
  destruct (decide (Float.ulps y.2 = Float.ulps x)) as [Ey|Ey],
           (decide (Float.ulps item.2 = Float.ulps x)) as [Ei|Ei]; try done.
  exfalso. unfold Float.le in E. apply Z.leb_gt in E. lia.
Qed.

Lemma sorted_desc_tied x l : tied x (sorted_desc l) = tied x l.
Proof.
  induction l as [|item l IH]; simpl; [done|].
  rewrite insert_desc_tied by apply sorted_desc_sorted.
  unfold tied in *. by rewrite !filter_cons, IH.
Qed.

End RankFacts.

(** X28: the ranking holds the words of the mapping, each once, ordered
    by scores that never increase, and it is cut after 51 words. *)
Theorem ranking_sorted (frequencies : list (string * Float.float)) :
  sorted_desc frequencies ≡ₚ frequencies /\
  StronglySorted (fun x y => Float.le y.2 x.2 = true) (sorted_desc frequencies) /\
  length (ranking frequencies) = min 51 (length frequencies).
Proof.
  split; [apply RankFacts.sorted_desc_perm|].
  split; [apply RankFacts.sorted_desc_sorted|].
  unfold ranking. rewrite length_take, length_fmap.
  by rewrite (Permutation_length (RankFacts.sorted_desc_perm frequencies)).
Qed.

(** X29: ties keep the order of the mapping: the words with one and the
    same score come in the ranking in the order they have in the mapping,
    which for the mapping of [calculate_tf] is the order in which they
    first occur in the text. *)
Theorem ranking_stable (frequencies : list (string * Float.float)) (s : Float.float) :
  filter (fun y => Float.ulps y.2 = Float.ulps s) (sorted_desc frequencies)
  = filter (fun y => Float.ulps y.2 = Float.ulps s) frequencies.
Proof. apply RankFacts.sorted_desc_tied. Qed.

(** ** [load_ignored_words] *)

Module LinesFacts.
Import Lines.
#[local] Arguments Ascii.eqb : simpl never.

Lemma has_space_newline w : has_space w = false -> Str.has_char Str.newline w = false.
Proof.
  induction w as [|c w IH]; [done|].
  rewrite WordFacts.has_char_cons. cbn [has_space].
  destruct (is_strip_space c) eqn:E; [discriminate|]. cbn [orb]. intros H.
  destruct (Ascii.eqb_spec Str.newline c) as [<-|_]; [by vm_compute in E|by apply IH].
Qed.

Lemma has_space_space w : has_space w = false -> Str.has_char " " w = false.
Proof.
  induction w as [|c w IH]; [done|].
  rewrite WordFacts.has_char_cons. cbn [has_space].
  destruct (is_strip_space c) eqn:E; [discriminate|]. cbn [orb]. intros H.
  destruct (Ascii.eqb_spec " " c) as [<-|_]; [by vm_compute in E|by apply IH].
Qed.

Lemma readlines_cons c s :
  readlines (String c s)
  = if Ascii.eqb c Str.newline then String c "" :: readlines s
    else match readlines s with
         | [] => [String c ""]
         | l :: ls => String c l :: ls
         end.
Proof. reflexivity. Qed.

(** A line and its newline come off the front of the text. *)
Lemma readlines_line w rest :
  Str.has_char Str.newline w = false ->
  readlines (w +:+ String Str.newline rest)
  = (w +:+ String Str.newline "") :: readlines rest.
Proof.
  induction w as [|c w IH]; intros H.
  - rewrite !StrFacts.app_nil_l, readlines_cons. by rewrite Ascii.eqb_refl.
  - rewrite !StrFacts.app_cons, readlines_cons. simpl in H.
    rewrite (Ascii.eqb_sym c Str.newline).
    destruct (Ascii.eqb Str.newline c); [discriminate|]. by rewrite IH.
Qed.

Lemma rstrip_cons c s :
  rstrip (String c s)
  = match rstrip s with
    | "" => if is_strip_space c then "" else String c ""
    | t => String c t
    end.
Proof. reflexivity. Qed.

Lemma rstrip_line w : has_space w = false -> rstrip (w +:+ String Str.newline "") = w.
Proof.
  induction w as [|c w IH]; intros H; [reflexivity|].
  rewrite StrFacts.app_cons, rstrip_cons. simpl in H.
  destruct (is_strip_space c) eqn:E; [discriminate|]. rewrite IH by done.
  by destruct w.
Qed.

Lemma strip_line w : has_space w = false -> strip (w +:+ String Str.newline "") = w.
Proof.
  intros H. unfold strip. destruct w as [|c w]; [reflexivity|].
  rewrite StrFacts.app_cons. cbn [lstrip]. simpl in H.
  destruct (is_strip_space c) eqn:E; [discriminate|].
  rewrite <- StrFacts.app_cons. apply rstrip_line. simpl. by rewrite E.
Qed.

(** A text of words, one per line: its lines, stripped and split, are
    the words. *)
Lemma words_of_lines words :
  Forall (fun w => has_space w = false) words ->
  (strip <$> readlines (String.concat "" ((fun w => w +:+ String Str.newline "") <$> words)))
    ≫= Str.split " "
  = words.
Proof.
  induction 1 as [|w words Hw _ IH]; [reflexivity|].
  rewrite fmap_cons.
  assert (String.concat "" ((w +:+ String Str.newline "")
                            :: ((fun w => w +:+ String Str.newline "") <$> words))
          = w +:+ String Str.newline
              (String.concat "" ((fun w => w +:+ String Str.newline "") <$> words))) as ->.
  { destruct words as [|w' words'].
    - reflexivity.
    - rewrite fmap_cons.
      change (String.concat "" (?a :: ?b :: ?l)) with (a +:+ "" +:+ String.concat "" (b :: l)).
      by rewrite StrFacts.app_nil_l, StrFacts.app_assoc. }
  rewrite readlines_line by (by apply has_space_newline).
  rewrite fmap_cons, bind_cons, IH, strip_line by done.
  by rewrite WordFacts.split_without_sep by (by apply has_space_space).
Qed.

End LinesFacts.

(** X30: an ignore file with one word per line, every word without
    white space and followed by a newline, loads as the set of its words;
    the file is read and the two lines are printed, nothing else
    happens. *)
Theorem load_ignored_words_one_per_line
    (repr_set : gset string -> string)
    (words_file : string) (words : list string) (w : world) :
  Forall (fun word => Lines.has_space word = false) words ->
  files w !! words_file
  = Some (String.concat "" ((fun word => word +:+ String Str.newline "") <$> words)) ->
  load_ignored_words repr_set (Some words_file) w
  = (Ok (list_to_set words),
     mkWorld (trace w ++ [EvRead words_file;
                          EvPrint "[*] Ignoring the following words";
                          EvPrint (repr_set (list_to_set words))])
             (files w)).
Proof.
  intros Hwords Hfile.
  unfold load_ignored_words. unfold mbind at 1, io_bind at 1, read_file at 1.
  rewrite Hfile. cbn beta iota.
  rewrite (LinesFacts.words_of_lines words Hwords).
  unfold mbind, io_bind, print, emit, mret, io_ret. cbn [trace files].
  by rewrite <- !app_assoc.
Qed.

Lemma load_ignored_words_one_per_line_witness :
  load_ignored_words (fun _ => "{...}") (Some "ignore.txt")
    (mkWorld [] {[ "ignore.txt" := String.concat ""
                     ((fun word => word +:+ String Str.newline "") <$> ["the"; "and"]) ]})
  = (Ok (list_to_set ["the"; "and"]),
     mkWorld ([] ++ [EvRead "ignore.txt";
                     EvPrint "[*] Ignoring the following words";
                     EvPrint ((fun _ => "{...}") (list_to_set ["the"; "and"] : gset string))])
             {[ "ignore.txt" := String.concat ""
                  ((fun word => word +:+ String Str.newline "") <$> ["the"; "and"]) ]}).
Proof.
  exact (load_ignored_words_one_per_line (fun _ => "{...}") "ignore.txt" ["the"; "and"]
           (mkWorld [] {[ "ignore.txt" := String.concat ""
                            ((fun word => word +:+ String Str.newline "") <$> ["the"; "and"]) ]})
           ltac:(repeat constructor) ltac:(vm_compute; reflexivity)).
Defined.
